(** * obj-loader: a shallow embedding of [loader.go] and its properties

    The Go package [objloader] decodes Wavefront OBJ text and its MTL
    companion into mesh buckets and material records.  This file embeds
    [getFaceType], [getFaceData], [sliceToFloat32], [LoadMtl] and [LoadObj]
    as executable Rocq functions and proves what the decoder does.

    Conventions.
    - A Go [string] is a [string] of bytes; a Go [int] is a [Z] in the
      64-bit range, with the wrap-around of [-] and [+] written out.
    - A Go function that can panic returns a [result]: [Ok], a returned
      [error] ([Error]) or a run-time panic ([Panic]).
    - The maps behind [*MeshMap] and [*MaterialMap] belong to the caller and
      are updated in place, so every decoder function returns the store
      next to its outcome, also when the outcome is a failure.
    - Lines printed on standard output are not modelled. *)

From Stdlib Require Import ZArith Ascii String List Lia Bool.
From Stdlib Require Import Floats.SpecFloat.
From stdpp Require Import base option list gmap strings pretty.

Set Default Proof Using "Type".

Local Open Scope string_scope.
Local Open Scope list_scope.
Local Open Scope Z_scope.

(** ** Go run-time values *)

Module Go.

(** [int] arithmetic: the result of [+] and [-] is reduced to 64 bits. *)
Definition minInt : Z := - 2 ^ 63.
Definition maxInt : Z := 2 ^ 63 - 1.
Definition wrap64 (z : Z) : Z := (z + 2 ^ 63) mod 2 ^ 64 - 2 ^ 63.
Definition wrap32 (z : Z) : Z := (z + 2 ^ 31) mod 2 ^ 32 - 2 ^ 31.

(** Values of the [error] interface the package returns. *)
Inductive error : Type :=
  | InvalidFormat (msg : string) (p : list string)   (* errorInvalidFormat *)
  | NotSupported (msg : string) (p : list string)    (* errorNotSupported *)
  | NumError (fn : string) (num : string)            (* *strconv.NumError *)
  | PathError (path : string)                        (* os.Open failed *)
  | ScanError.                                       (* scanner.Err() *)

(** Run-time panics. *)
Inductive panic : Type :=
  | IndexOutOfRange
  | SliceBoundsOutOfRange
  | NilDereference.

Inductive result (A : Type) : Type :=
  | Ok (a : A)
  | Error (e : error)
  | Panic (p : panic).
Arguments Ok {A} a.
Arguments Error {A} e.
Arguments Panic {A} p.

Definition bind {A B} (r : result A) (k : A -> result B) : result B :=
  match r with
  | Ok a => k a
  | Error e => Error e
  | Panic p => Panic p
  end.

(** [s[i]] on a slice: a panic outside [0 <= i < len(s)]. *)
Definition index {A} (s : list A) (i : Z) : result A :=
  if (0 <=? i) && (i <? Z.of_nat (List.length s))
  then match s !! Z.to_nat i with
       | Some a => Ok a
       | None => Panic IndexOutOfRange
       end
  else Panic IndexOutOfRange.

(** [s[:n]] on a slice whose capacity equals its length, which is the case
    of [strings.Fields(...)[1:]]: [Fields] allocates exactly one slot per
    field, so re-slicing past the length panics. *)
Definition sliceTo {A} (s : list A) (n : nat) : result (list A) :=
  if (n <=? List.length s)%nat then Ok (firstn n s)
  else Panic SliceBoundsOutOfRange.

(** *** package strings *)

Definition isSpace (c : ascii) : bool :=
  let n := nat_of_ascii c in
  ((9 <=? n) && (n <=? 13) || (n =? 32))%nat.

(** The White_Space runes beyond ASCII, as UTF-8: U+0085 and U+00A0 on two
    bytes, U+1680, U+2000 to U+200A, U+2028, U+2029, U+202F, U+205F and
    U+3000 on three.  [spaceWidth s] is the number of bytes of the space
    rune [s] starts with, [0] when it starts with none.  A first byte of
    these encodings is no continuation byte, so the decoder of [range] over
    a string, which steps over continuation bytes only, always stops on
    it. *)
Definition spaceWidth (s : string) : nat :=
  let byte (c : ascii) := nat_of_ascii c in
  match s with
  | EmptyString => 0
  | String c1 r =>
      if isSpace c1 then 1
      else if byte c1 =? 194 then
        match r with
        | String c2 _ => if (byte c2 =? 133) || (byte c2 =? 160) then 2 else 0
        | _ => 0
        end
      else if byte c1 =? 225 then
        match r with
        | String c2 (String c3 _) =>
            if (byte c2 =? 154) && (byte c3 =? 128) then 3 else 0
        | _ => 0
        end
      else if byte c1 =? 226 then
        match r with
        | String c2 (String c3 _) =>
            if byte c2 =? 128 then
              if (128 <=? byte c3) && (byte c3 <=? 138)
                 || (byte c3 =? 168) || (byte c3 =? 169) || (byte c3 =? 175)
              then 3 else 0
            else if (byte c2 =? 129) && (byte c3 =? 159) then 3
            else 0
        | _ => 0
        end
      else if byte c1 =? 227 then
        match r with
        | String c2 (String c3 _) =>
            if (byte c2 =? 128) && (byte c3 =? 128) then 3 else 0
        | _ => 0
        end
      else 0
  end%nat.

(** [strings.Fields]: the maximal runs of bytes between the space runes of
    [unicode.IsSpace], the six of ASCII and the ones above.  [cur] is the
    field being read, in reverse; [skip] counts the bytes still to drop of
    the space rune being stepped over. *)
Fixpoint fieldsAux (s : string) (cur : list ascii) (skip : nat) : list string :=
  let flush (k : list string) :=
    match cur with
    | [] => k
    | _ => string_of_list_ascii (rev cur) :: k
    end in
  match s with
  | EmptyString => flush []
  | String c s' =>
      match skip with
      | S k => fieldsAux s' cur k
      | O =>
          match spaceWidth s with
          | O => fieldsAux s' (c :: cur) 0
          | S k => flush (fieldsAux s' [] k)
          end
      end
  end.

Definition Fields (s : string) : list string := fieldsAux s [] 0.

(** [strings.Split(s, sep)] for a one-byte separator: [n] separators give
    [n + 1] segments, so the result is never empty. *)
Fixpoint Split (s : string) (sep : ascii) : list string :=
  match s with
  | EmptyString => [EmptyString]
  | String c s' =>
      if Ascii.eqb c sep then EmptyString :: Split s' sep
      else match Split s' sep with
           | seg :: segs => String c seg :: segs
           | [] => [String c EmptyString]
           end
  end.

Fixpoint trimLeft (s : string) (cut : ascii) : string :=
  match s with
  | String c s' => if Ascii.eqb c cut then trimLeft s' cut else s
  | EmptyString => EmptyString
  end.

Fixpoint trimRight (s : string) (cut : ascii) : string :=
  match s with
  | EmptyString => EmptyString
  | String c s' =>
      match trimRight s' cut with
      | EmptyString => if Ascii.eqb c cut then EmptyString else String c EmptyString
      | t => String c t
      end
  end.

(** [strings.Trim(s, cutset)] for a one-byte cutset. *)
Definition Trim (s : string) (cut : ascii) : string :=
  trimRight (trimLeft s cut) cut.

(** *** package strconv *)

Definition isDigit (c : ascii) : bool :=
  let n := nat_of_ascii c in ((48 <=? n) && (n <=? 57))%nat.

Definition digitVal (c : ascii) : Z := Z.of_nat (nat_of_ascii c) - 48.

(** The value of a run of decimal digits, [None] on any other byte. *)
Fixpoint digitsValue (s : string) (acc : Z) : option Z :=
  match s with
  | EmptyString => Some acc
  | String c s' =>
      if isDigit c then digitsValue s' (10 * acc + digitVal c) else None
  end.

(** [strconv.ParseInt(s, 10, 64)], which is also [strconv.Atoi(s)] on a
    64-bit platform: an optional sign, then one or more decimal digits;
    [None] is a syntax or range error. *)
Definition ParseInt (s : string) : option Z :=
  let '(neg, body) :=
    match s with
    | String "+" r => (false, r)
    | String "-" r => (true, r)
    | _ => (false, s)
    end in
  match body with
  | EmptyString => None
  | _ =>
      match digitsValue body 0 with
      | None => None
      | Some n =>
          let v := if neg then - n else n in
          if (minInt <=? v) && (v <=? maxInt) then Some v else None
      end
  end.

Definition Atoi (s : string) : result Z :=
  match ParseInt s with
  | Some v => Ok v
  | None => Error (NumError "Atoi" s)
  end.

(** *** package fmt *)

(** The formats [getFaceData] uses are made of the verb [%d] and of
    literal bytes. *)
Inductive fmtItem : Type :=
  | VerbD
  | Lit (c : ascii).

(** The longest prefix of [s] made of bytes accepted by [ok], and the rest. *)
Fixpoint acceptRun (ok : ascii -> bool) (s : string) : string * string :=
  match s with
  | String c s' =>
      if ok c then let '(tok, rest) := acceptRun ok s' in (String c tok, rest)
      else (EmptyString, s)
  | EmptyString => (EmptyString, EmptyString)
  end.

(** [SkipSpace] of the scanner state [ss], as [Fscanf] runs it: the space
    runes are stepped over, a newline among them is an error. *)
Fixpoint SkipSpace (s : string) (skip : nat) : option string :=
  match s with
  | EmptyString => Some EmptyString
  | String c s' =>
      match skip with
      | S k => SkipSpace s' k
      | O =>
          if Ascii.eqb c "010" then None
          else
            match spaceWidth s with
            | O => Some s
            | S k => SkipSpace s' k
            end
      end
  end.

(** [scanInt] of the scanner state [ss] for the verb [%d]: after the
    leading spaces, an optional sign and a non-empty run of decimal digits,
    which [ParseInt] must then accept.  The run stops at the first byte that
    is no digit, an underscore included. *)
Definition scanInt (s : string) : option (Z * string) :=
  match SkipSpace s 0 with
  | None => None
  | Some s0 =>
      let '(sign, s1) :=
        match s0 with
        | String "+" r => ("+", r)
        | String "-" r => ("-", r)
        | _ => ("", s0)
        end in
      let '(tok, rest) := acceptRun isDigit s1 in
      match tok with
      | EmptyString => None
      | _ => match ParseInt (sign +:+ tok) with
             | Some v => Some (v, rest)
             | None => None
             end
      end
  end.

(** [fmt.Fscanf(reader, format, &a, &b, ...)]: the values stored into the
    operands, in order, up to the first failure.  Input left over after the
    format is not an error.  The operands not reached keep their value. *)
Fixpoint Fscanf (input : string) (format : list fmtItem) : list Z :=
  match format with
  | [] => []
  | VerbD :: format' =>
      match scanInt input with
      | Some (v, rest) => v :: Fscanf rest format'
      | None => []
      end
  | Lit c :: format' =>
      match input with
      | String c' rest => if Ascii.eqb c c' then Fscanf rest format' else []
      | EmptyString => []
      end
  end.

(** The value of the [k]-th operand after the call, a zero-valued [int]
    variable before it. *)
Definition operand (stored : list Z) (k : nat) : Z := nth k stored 0.

End Go.

Import Go.

#[global] Instance result_bind : MBind result := fun _ _ k r => Go.bind r k.
#[global] Instance result_ret : MRet result := fun _ a => Ok a.

(** ** Errors of the package *)

(** [fmt.Errorf("INVALID FORMAT: %s _> %v", msg, p)]: the error value is
    kept as its two arguments; [p] is the slice [parts] at every call that
    returns the error. *)
Definition errorInvalidFormat (msg : string) (p : list string) : error :=
  InvalidFormat msg p.

(** [fmt.Errorf("NOT SUPPORTED: %s _> %v", msg, p)] *)
Definition errorNotSupported (msg : string) (p : list string) : error :=
  NotSupported msg p.

(** ** float32 *)

(** The decoder needs little of [float32]: the zero value, [-], [*] and
    [strconv.ParseFloat(s, 32)], of which [None] is the error case.  The
    development is generic in them; [Binary32] below is the IEEE 754
    instance with every operation rounded to nearest even.  Each [-] and
    [*] of the source is one operation of the class: a compiler that fuses
    [x*y - z] into one rounding, as Go allows, computes another [cross] on
    inexact products. *)
Class Float32 (F : Type) : Type := {
  f32_zero : F;
  f32_sub : F -> F -> F;
  f32_mul : F -> F -> F;
  ParseFloat : string -> option F
}.

(** ** Face tokens *)

(** The four encodings are the integer codes 0 to 3 in the source; -1 is
    the code of an undefined format. *)
Definition PositionOnly : Z := 0.
Definition PositionUV : Z := 1.
Definition PositionUVNormal : Z := 2.
Definition PositionNormal : Z := 3.
Definition UndefinedFace : Z := -1.

Definition getFaceType (p : string) : Z :=
  let v := Split p "/" in
  let n := List.length v in
  if (n =? 0)%nat then -1          (* invalid type *)
  else if (n =? 1)%nat then 0      (* f v *)
  else if (n =? 2)%nat then 1      (* f v/vt *)
  else if (n =? 3)%nat then
    if negb (String.eqb (nth 1 v "") "") then 2   (* f v/vt/vn *)
    else 3                                       (* f v//vn *)
  else -1.

Definition getFaceData (p : string) (vtype : Z) : list Z :=
  match vtype with
  | 0 =>
      let st := Fscanf p [VerbD] in
      [operand st 0]
  | 1 =>
      let st := Fscanf p [VerbD; Lit "/"; VerbD] in
      [operand st 0; operand st 1]
  | 2 =>
      let st := Fscanf p [VerbD; Lit "/"; VerbD; Lit "/"; VerbD] in
      [operand st 0; operand st 1; operand st 2]
  | 3 =>
      let st := Fscanf p [VerbD; Lit "/"; Lit "/"; VerbD] in
      [operand st 0; operand st 1]
  | _ => []
  end.

(** ** Files *)

(** What [os.Open] and a [bufio.Scanner] make of a path: the lines the
    scanner yields and whether [scanner.Err()] is non-nil after them (a
    read error or a line longer than the scanner's buffer). *)
Record File : Type := mkFile { flines : list string; ferr : bool }.

Section Loader.

Context {F : Type} `{Float32 F}.

(** [os.Open]: [None] for a path that cannot be opened. *)
Variable fs : string -> option File.

Definition Vec3 : Type := F * F * F.
Definition Vec2 : Type := F * F.

Definition slice3 (v : Vec3) : list F := let '(a, b, c) := v in [a; b; c].
Definition slice2 (v : Vec2) : list F := let '(a, b) := v in [a; b].

Record Mesh : Type := mkMesh {
  Vertices : list F;
  Vtype : Z;
  MaterialName : string
}.

Record Options : Type := mkOptions { NeedNormals : bool }.

Record Material : Type := mkMaterial {
  Name : string;
  Ns : F;
  Ni : F;
  D : F;
  Illum : Z;
  Ka : Vec3;
  Kd : Vec3;
  Ks : Vec3;
  Ke : Vec3;
  Ki : Vec3
}.

Definition zero3 : Vec3 := (f32_zero, f32_zero, f32_zero).
Definition zero2 : Vec2 := (f32_zero, f32_zero).

(** [&Material{Name: name}] *)
Definition newMaterial (name : string) : Material :=
  mkMaterial name f32_zero f32_zero f32_zero 0 zero3 zero3 zero3 zero3 zero3.

(** The result slice and the error of [sliceToFloat32]. *)
Fixpoint sliceToFloat32From (parts : list string) (result : list F)
  : list F * option error :=
  match parts with
  | [] => (result, None)
  | v :: parts' =>
      match ParseFloat v with
      | None => (result, Some (NumError "ParseFloat" v))
      | Some num => sliceToFloat32From parts' (result ++ [num])
      end
  end.
Definition sliceToFloat32 (parts : list string) : list F * option error :=
  sliceToFloat32From parts [].

Fixpoint sliceToIntFrom (parts : list string) (result : list Z)
  : list Z * option error :=
  match parts with
  | [] => (result, None)
  | v :: parts' =>
      match ParseInt v with
      | None => (result, Some (NumError "Atoi" v))
      | Some num => sliceToIntFrom parts' (result ++ [num])
      end
  end.
Definition sliceToInt (parts : list string) : list Z * option error :=
  sliceToIntFrom parts [].

(** ** LoadMtl *)

(** The map behind [*MaterialMap].  It holds [*Material] pointers; [LoadMtl]
    stores a pointer under the name of the record the moment it allocates
    it, and only [newmtl] stores, so the local pointer [m] is, when not
    nil, the entry of the map under the last [newmtl] name.  The model keeps
    that name for [m] and writes through the map. *)
Abbreviation MaterialMap := (gmap string Material).

(** [m.field = ...] through the pointer [m]. *)
Definition assign (m : option string) (upd : Material -> Material)
    (materials : MaterialMap) : result unit * MaterialMap :=
  match m with
  | None => (Panic NilDereference, materials)
  | Some name => (Ok tt, alter upd name materials)
  end.

(** The cases [Ns], [Ni] and [d]. *)
Definition scalarCase (msg : string) (parts : list string) (m : option string)
    (upd : F -> Material -> Material) (materials : MaterialMap)
  : result unit * MaterialMap :=
  if (List.length parts <? 1)%nat then (Error (errorInvalidFormat msg parts), materials)
  else match index parts 0 with
       | Ok s =>
           match ParseFloat s with
           | None => (Error (NumError "ParseFloat" s), materials)
           | Some num => assign m (upd num) materials
           end
       | Error e => (Error e, materials)
       | Panic p => (Panic p, materials)
       end.

(** The cases [Ka], [Kd], [Ke], [Ki] and [Ks]. *)
Definition vectorCase (msg : string) (parts : list string) (m : option string)
    (upd : Vec3 -> Material -> Material) (materials : MaterialMap)
  : result unit * MaterialMap :=
  if (List.length parts <? 3)%nat then (Error (errorInvalidFormat msg parts), materials)
  else match sliceToFloat32 parts with
       | (_, Some err) => (Error err, materials)
       | (nums, None) =>
           match (a ← index nums 0; b ← index nums 1; c ← index nums 2;
                  mret (a, b, c)) with
           | Ok v => assign m (upd v) materials
           | Error e => (Error e, materials)
           | Panic p => (Panic p, materials)
           end
       end.

Definition setNs (x : F) (r : Material) : Material :=
  mkMaterial (Name r) x (Ni r) (D r) (Illum r) (Ka r) (Kd r) (Ks r) (Ke r) (Ki r).
Definition setNi (x : F) (r : Material) : Material :=
  mkMaterial (Name r) (Ns r) x (D r) (Illum r) (Ka r) (Kd r) (Ks r) (Ke r) (Ki r).
Definition setD (x : F) (r : Material) : Material :=
  mkMaterial (Name r) (Ns r) (Ni r) x (Illum r) (Ka r) (Kd r) (Ks r) (Ke r) (Ki r).
Definition setIllum (x : Z) (r : Material) : Material :=
  mkMaterial (Name r) (Ns r) (Ni r) (D r) x (Ka r) (Kd r) (Ks r) (Ke r) (Ki r).
Definition setKa (x : Vec3) (r : Material) : Material :=
  mkMaterial (Name r) (Ns r) (Ni r) (D r) (Illum r) x (Kd r) (Ks r) (Ke r) (Ki r).
Definition setKd (x : Vec3) (r : Material) : Material :=
  mkMaterial (Name r) (Ns r) (Ni r) (D r) (Illum r) (Ka r) x (Ks r) (Ke r) (Ki r).
Definition setKs (x : Vec3) (r : Material) : Material :=
  mkMaterial (Name r) (Ns r) (Ni r) (D r) (Illum r) (Ka r) (Kd r) x (Ke r) (Ki r).
Definition setKe (x : Vec3) (r : Material) : Material :=
  mkMaterial (Name r) (Ns r) (Ni r) (D r) (Illum r) (Ka r) (Kd r) (Ks r) x (Ki r).
Definition setKi (x : Vec3) (r : Material) : Material :=
  mkMaterial (Name r) (Ns r) (Ni r) (D r) (Illum r) (Ka r) (Kd r) (Ks r) (Ke r) x.

(** The body of the scanner loop of [LoadMtl] on one line: the new value of
    the pointer [m], or the failure that ends the call, and the map. *)
Definition mtlLine (rawText : string) (m : option string) (materials : MaterialMap)
  : result (option string) * MaterialMap :=
  match Fields rawText with
  | [] => (Ok m, materials)                                  (* continue *)
  | key :: parts =>
      let keep (r : result unit * MaterialMap) :=
        (_ ← r.1; mret m, r.2) in
      if String.eqb key "newmtl" then
        match index parts 0 with
        | Ok name => (Ok (Some name), <[name := newMaterial name]> materials)
        | Error e => (Error e, materials)
        | Panic p => (Panic p, materials)
        end
      else if String.eqb key "Ns" then
        keep (scalarCase "'Ns' must have 1 element" parts m setNs materials)
      else if String.eqb key "Ni" then
        keep (scalarCase "'Ni' must have 1 element" parts m setNi materials)
      else if String.eqb key "d" then
        keep (scalarCase "'d' must have 1 element" parts m setD materials)
      else if String.eqb key "illum" then
        if (List.length parts <? 1)%nat
        then (Error (errorInvalidFormat "'illum' must have 1 element" parts), materials)
        else match s ← index parts 0; Atoi s with
             | Ok num => keep (assign m (setIllum (wrap32 num)) materials)
             | Error e => (Error e, materials)
             | Panic p => (Panic p, materials)
             end
      else if String.eqb key "Ka" then
        keep (vectorCase "'Ka' must have 3 element" parts m setKa materials)
      else if String.eqb key "Kd" then
        keep (vectorCase "'Kd' must have 3 element" parts m setKd materials)
      else if String.eqb key "Ke" then
        keep (vectorCase "'Ke' must have 3 element" parts m setKe materials)
      else if String.eqb key "Ki" then
        keep (vectorCase "'Ki' must have 3 element" parts m setKi materials)
      else if String.eqb key "Ks" then
        keep (vectorCase "'Ks' must have 3 element" parts m setKs materials)
      else (Ok m, materials)
  end.

Fixpoint mtlLoop (lines : list string) (m : option string) (materials : MaterialMap)
  : result unit * MaterialMap :=
  match lines with
  | [] => (Ok tt, materials)
  | rawText :: lines' =>
      match mtlLine rawText m materials with
      | (Ok m', materials') => mtlLoop lines' m' materials'
      | (Error e, materials') => (Error e, materials')
      | (Panic p, materials') => (Panic p, materials')
      end
  end.

(** [LoadMtl(filePath, materials)]: [Ok tt] is the nil error.  The error of
    the scanner is not looked at. *)
Definition LoadMtl (filePath : string) (materials : MaterialMap)
  : result unit * MaterialMap :=
  match fs filePath with
  | None => (Error (PathError filePath), materials)
  | Some f => mtlLoop (flines f) None materials
  end.

(** ** LoadObj *)

(** The map behind [*MeshMap].  [LoadObj] allocates one [Mesh] per key it
    adds, so the map is modelled by value; a caller's map in which two keys
    share one [*Mesh] is outside the model. *)
Abbreviation MeshMap := (gmap string Mesh).

(** The two maps of the caller, both allocated. *)
Record Store : Type := mkStore {
  meshes : MeshMap;
  materials : MaterialMap
}.

(** The local variables of [LoadObj]. *)
Record ObjState : Type := mkObjState {
  positions : list Vec3;
  normals : list Vec3;
  uvs : list Vec2;
  lineCounter : Z;
  facesCounter : Z;
  currentMaterial : string;
  _nsMap : gset string
}.

Definition initObjState : ObjState :=
  mkObjState [] [] [] 0 0 "default" ∅.

(** [for _, p := range parts] of the face case: [all] is [parts], for the
    error value. *)
Fixpoint facesLoop (all : list string) (vtype : Z) (ps : list string)
    (faces : list (list Z)) : result (list (list Z)) :=
  match ps with
  | [] => Ok faces
  | p :: ps' =>
      let p := Trim p "/" in
      if negb (vtype =? getFaceType p)
      then Error (errorInvalidFormat "Faces cannot have inconsistent format" all)
      else facesLoop all vtype ps' (faces ++ [getFaceData p vtype])
  end.

Definition cross (u v : Vec3) : Vec3 :=
  let '(u0, u1, u2) := u in
  let '(v0, v1, v2) := v in
  (f32_sub (f32_mul u1 v2) (f32_mul u2 v1),
   f32_sub (f32_mul u2 v0) (f32_mul u0 v2),
   f32_sub (f32_mul u0 v1) (f32_mul u1 v0)).

Definition sub3 (b a : Vec3) : Vec3 :=
  let '(a0, a1, a2) := a in
  let '(b0, b1, b2) := b in
  (f32_sub b0 a0, f32_sub b1 a1, f32_sub b2 a2).

(** [arr[i-1]] for a 1-based reference [i] of a face token. *)
Definition resolve {A} (arr : list A) (i : Z) : result A :=
  index arr (wrap64 (i - 1)).

(** [arr[f[k]-1]]: the element that slot [k] of the token data [f]
    refers to. *)
Definition deref {A} (arr : list A) (f : list Z) (k : Z) : result A :=
  i ← index f k; resolve arr i.

(** One turn of [for i := 0; i < len(faces); i += 3], on
    [faces[i]], [faces[i+1]] and [faces[i+2]]. *)
Definition triangle (options : Options) (positions normals : list Vec3)
    (uvs : list Vec2) (uvIdx nIdx : Z) (f1 f2 f3 : list Z)
    (vertices : list F) : result (list F) :=
  (* POSITIONS *)
  va ← deref positions f1 0;
  vb ← deref positions f2 0;
  vc ← deref positions f3 0;
  (* NORMALS *)
  n3 ← (if negb (nIdx =? -1) then
          na ← deref normals f1 nIdx;
          nb ← deref normals f2 nIdx;
          nc ← deref normals f3 nIdx;
          mret (na, nb, nc)
        else if NeedNormals options then
          let u := sub3 vb va in
          let v := sub3 vc va in
          let n := cross u v in
          mret (n, n, n)
        else mret (zero3, zero3, zero3));
  let '(na, nb, nc) := n3 in
  (* UVS *)
  uv3 ← (if negb (uvIdx =? -1) then
           uva ← deref uvs f1 uvIdx;
           uvb ← deref uvs f2 uvIdx;
           uvc ← deref uvs f3 uvIdx;
           mret (uva, uvb, uvc)
         else mret (zero2, zero2, zero2));
  let '(uva, uvb, uvc) := uv3 in
  (* v1 *)
  let vertices := vertices ++ slice3 va in
  let vertices := if negb (uvIdx =? -1) then vertices ++ slice2 uva else vertices in
  let vertices := if NeedNormals options then vertices ++ slice3 na else vertices in
  (* v2 *)
  let vertices := vertices ++ slice3 vb in
  let vertices := if negb (uvIdx =? -1) then vertices ++ slice2 uvb else vertices in
  let vertices := if NeedNormals options then vertices ++ slice3 nb else vertices in
  (* v3 *)
  let vertices := vertices ++ slice3 vc in
  let vertices := if negb (uvIdx =? -1) then vertices ++ slice2 uvc else vertices in
  let vertices := if NeedNormals options then vertices ++ slice3 nc else vertices in
  mret vertices.

(** [for i := 0; i < len(faces); i += 3]; [faces] is what is left from
    index [i] on. *)
Fixpoint trianglesLoop (options : Options) (positions normals : list Vec3)
    (uvs : list Vec2) (uvIdx nIdx : Z) (faces : list (list Z))
    (vertices : list F) : result (list F) :=
  match faces with
  | [] => Ok vertices
  | f1 :: f2 :: f3 :: rest =>
      vertices' ← triangle options positions normals uvs uvIdx nIdx f1 f2 f3 vertices;
      trianglesLoop options positions normals uvs uvIdx nIdx rest vertices'
  | _ => Panic IndexOutOfRange       (* faces[i+1], faces[i+2] *)
  end.

Definition nIdxOf (vtype : Z) : Z :=
  if vtype =? 2 then 2 else if vtype =? 3 then 1 else -1.
Definition uvIdxOf (vtype : Z) : Z :=
  if (vtype =? 2) || (vtype =? 1) then 1 else -1.

(** The face case up to index resolution: the checks on the record, its
    encoding and the references of its tokens. *)
Definition faceTokens (parts : list string) : result (Z * list (list Z)) :=
  p0 ← index parts 0;
  let vtype := getFaceType (Trim p0 "/") in
  if (List.length parts <? 3)%nat
  then Error (errorInvalidFormat "Faces cannot have length less than 3" parts)
  else if negb (List.length parts =? 3)%nat
  then Error (errorNotSupported "Only Supports faces with length 3" parts)
  else if vtype =? -1
  then Error (errorInvalidFormat "Undefined face format" parts)
  else
    faces ← facesLoop parts vtype parts [];
    if negb (Z.of_nat (List.length faces) mod 3 =? 0)
    then Error (errorInvalidFormat "Undefined Behavior" parts)
    else mret (vtype, faces).

(** The face case up to the bucket write: the encoding of the record and
    the floats to append. *)
Definition faceVertices (options : Options) (st : ObjState) (parts : list string)
  : result (Z * list F) :=
  tokens ← faceTokens parts;
  let '(vtype, faces) := tokens in
  vertices ← trianglesLoop options (positions st) (normals st) (uvs st)
               (uvIdxOf vtype) (nIdxOf vtype) faces [];
  mret (vtype, vertices).

(** [fmt.Sprintf("mesh-vtype%d-material%s", vtype, currentMaterial)] *)
Definition meshID (vtype : Z) (currentMaterial : string) : string :=
  "mesh-vtype" +:+ pretty vtype +:+ "-material" +:+ currentMaterial.

Definition appendVertices (vertices : list F) (mesh : Mesh) : Mesh :=
  mkMesh (Vertices mesh ++ vertices) (Vtype mesh) (MaterialName mesh).

(** [if len(vertices) != 0 { ... }] of the face case. *)
Definition writeBucket (vtype : Z) (currentMaterial : string)
    (vertices : list F) (meshes : MeshMap) : MeshMap :=
  if negb (List.length vertices =? 0)%nat then
    let id := meshID vtype currentMaterial in
    let meshes :=
      match meshes !! id with
      | Some _ => meshes
      | None => <[id := mkMesh [] vtype currentMaterial]> meshes
      end in
    alter (appendVertices vertices) id meshes
  else meshes.

(** [for _, filePath := range parts] of the [mtllib] case. *)
Fixpoint mtllibLoop (parts : list string) (materials : MaterialMap)
  : result unit * MaterialMap :=
  match parts with
  | [] => (Ok tt, materials)
  | filePath :: parts' =>
      match LoadMtl filePath materials with
      | (Ok _, materials') => mtllibLoop parts' materials'
      | failure => failure
      end
  end.

(** The body of the scanner loop of [LoadObj] from [len(parts) == 0] on:
    [fields] is [strings.Fields(rawText)]. *)
Definition objRecord (options : Options) (fields : list string) (st : ObjState)
    (h : Store) : result ObjState * Store :=
  match fields with
  | [] => (Ok st, h)                                         (* continue *)
  | key :: parts =>
      if String.eqb key "#" then (Ok st, h)
      else if String.eqb key "v" then
        if (3 <? List.length parts)%nat
        then (Error (errorInvalidFormat "Vertex Position can only have 3 elements" parts), h)
        else
          (p3 ← sliceTo parts 3;
           match sliceToFloat32 p3 with
           | (_, Some err) => Error err
           | (vert, None) =>
               a ← index vert 0; b ← index vert 1; c ← index vert 2;
               mret (mkObjState (positions st ++ [(a, b, c)]) (normals st) (uvs st)
                       (lineCounter st) (facesCounter st)
                       (currentMaterial st) (_nsMap st))
           end, h)
      else if String.eqb key "vn" then
        if (3 <? List.length parts)%nat
        then (Error (errorInvalidFormat "Surface Normal can only have 3 elements" parts), h)
        else
          (p3 ← sliceTo parts 3;
           match sliceToFloat32 p3 with
           | (_, Some err) => Error err
           | (norm, None) =>
               a ← index norm 0; b ← index norm 1; c ← index norm 2;
               mret (mkObjState (positions st) (normals st ++ [(a, b, c)]) (uvs st)
                       (lineCounter st) (facesCounter st)
                       (currentMaterial st) (_nsMap st))
           end, h)
      else if String.eqb key "vt" then
        if (2 <? List.length parts)%nat
        then (Error (errorInvalidFormat "Texture coords only have 2 elements" parts), h)
        else
          (p2 ← sliceTo parts 2;
           match sliceToFloat32 p2 with
           | (_, Some err) => Error err
           | (uv, None) =>
               a ← index uv 0; b ← index uv 1;
               mret (mkObjState (positions st) (normals st) (uvs st ++ [(a, b)])
                       (lineCounter st) (facesCounter st)
                       (currentMaterial st) (_nsMap st))
           end, h)
      else if String.eqb key "f" then
        match faceVertices options st parts with
        | Ok (vtype, vertices) =>
            (Ok (mkObjState (positions st) (normals st) (uvs st)
                   (lineCounter st) (wrap64 (facesCounter st + 1))
                   (currentMaterial st) (_nsMap st)),
             mkStore (writeBucket vtype (currentMaterial st) vertices (meshes h))
                     (materials h))
        | Error e => (Error e, h)
        | Panic p => (Panic p, h)
        end
      else if String.eqb key "usemtl" then
        let name :=
          match parts with
          | [p] => if String.eqb p "" then "default" else p
          | _ => "default"
          end in
        (Ok (mkObjState (positions st) (normals st) (uvs st)
               (lineCounter st) (facesCounter st) name (_nsMap st)), h)
      else if String.eqb key "mtllib" then
        let '(r, materials') := mtllibLoop parts (materials h) in
        (_ ← r; mret st, mkStore (meshes h) materials')
      else
        if decide (key ∈ _nsMap st) then (Ok st, h)          (* continue *)
        else (Ok (mkObjState (positions st) (normals st) (uvs st)
                    (lineCounter st) (facesCounter st)
                    (currentMaterial st) ({[key]} ∪ _nsMap st)), h)
  end.

(** [lineCounter++] *)
Definition countLine (st : ObjState) : ObjState :=
  mkObjState (positions st) (normals st) (uvs st)
    (wrap64 (lineCounter st + 1)) (facesCounter st)
    (currentMaterial st) (_nsMap st).

(** One turn of the scanner loop of [LoadObj]. *)
Definition objLine (options : Options) (rawText : string) (st : ObjState)
    (h : Store) : result ObjState * Store :=
  objRecord options (Fields rawText) (countLine st) h.

Fixpoint objLoop (options : Options) (lines : list string) (st : ObjState)
    (h : Store) : result ObjState * Store :=
  match lines with
  | [] => (Ok st, h)
  | rawText :: lines' =>
      match objLine options rawText st h with
      | (Ok st', h') => objLoop options lines' st' h'
      | failure => failure
      end
  end.

(** [LoadObj(filePath, meshes, materials, options)]: the error returned, or
    the panic, and the caller's two maps as the call leaves them. *)
Definition LoadObj (filePath : string) (h : Store) (options : Options)
  : result unit * Store :=
  match fs filePath with
  | None => (Error (PathError filePath), h)
  | Some f =>
      match objLoop options (flines f) initObjState h with
      | (Ok _, h') => (if ferr f then Error ScanError else Ok tt, h')
      | (Error e, h') => (Error e, h')
      | (Panic p, h') => (Panic p, h')
      end
  end.

(** ** Vocabulary of the properties *)

(** The state after an accepted face record. *)
Definition countFace (st : ObjState) : ObjState :=
  mkObjState (positions st) (normals st) (uvs st) (lineCounter st)
    (wrap64 (facesCounter st + 1)) (currentMaterial st) (_nsMap st).

(** Slot [k] of the references of a token. *)
Definition slot (f : list Z) (k : Z) : Z := nth (Z.to_nat k) f 0.

(** The element a 1-based reference [i] designates: the [(i-1)]-th. *)
Definition elementAt {A} (d : A) (arr : list A) (i : Z) : A :=
  nth (Z.to_nat (i - 1)) arr d.

(** What one vertex adds to the buffer: its position, its texture
    coordinates when [uv] and its normal when [nrm]. *)
Definition vertexData (uv nrm : bool) (v : Vec3) (t : Vec2) (n : Vec3)
  : list F :=
  slice3 v ++ (if uv then slice2 t else []) ++ (if nrm then slice3 n else []).

(** The cross product of the edges from the first vertex. *)
Definition flatNormal (va vb vc : Vec3) : Vec3 :=
  cross (sub3 vb va) (sub3 vc va).

(** The references a triangle resolves are those of the position slot, of
    the uv slot when there is one and of the normal slot when there is
    one. *)
Definition carried (ps ns : list Vec3) (ts : list Vec2)
    (uvIdx nIdx : Z) (f : list Z) (v : Vec3) (t : Vec2) (n : Vec3) : Prop :=
  deref ps f 0 = Ok v /\
  (uvIdx <> -1 -> deref ts f uvIdx = Ok t) /\
  (nIdx <> -1 -> deref ns f nIdx = Ok n).

(** The references a token carries, each with the length of the array it
    refers to as the record finds it. *)
Definition references (st : ObjState) (vtype : Z) (f : list Z) : list (Z * nat) :=
  [(slot f 0, List.length (positions st))] ++
  (if negb (uvIdxOf vtype =? -1)
   then [(slot f (uvIdxOf vtype), List.length (uvs st))] else []) ++
  (if negb (nIdxOf vtype =? -1)
   then [(slot f (nIdxOf vtype), List.length (normals st))] else []).

Definition inRange (r : Z * nat) : Prop := 1 <= r.1 <= Z.of_nat r.2.
Definition outOfRange (r : Z * nat) : Prop := r.1 = 0 \/ Z.of_nat r.2 < r.1.

(** The floats of a face, read off the arrays with [elementAt]. *)
Definition faceData (options : Options) (st : ObjState) (vtype : Z)
    (f1 f2 f3 : list Z) : list F :=
  let uv := negb (uvIdxOf vtype =? -1) in
  let pos f := elementAt zero3 (positions st) (slot f 0) in
  let tex f := elementAt zero2 (uvs st) (slot f (uvIdxOf vtype)) in
  let nrm f :=
    if negb (nIdxOf vtype =? -1)
    then elementAt zero3 (normals st) (slot f (nIdxOf vtype))
    else flatNormal (pos f1) (pos f2) (pos f3) in
  vertexData uv (NeedNormals options) (pos f1) (tex f1) (nrm f1) ++
  vertexData uv (NeedNormals options) (pos f2) (tex f2) (nrm f2) ++
  vertexData uv (NeedNormals options) (pos f3) (tex f3) (nrm f3).

(** The references of a token by encoding, each with the length of the
    array it refers to as the record finds it: the position in slot 0; the
    texture coordinates in slot 1 of [v/vt] and [v/vt/vn]; the normal in
    slot 2 of [v/vt/vn] and in slot 1 of [v//vn]. *)
Definition tokenReferences (st : ObjState) (vtype : Z) (f : list Z)
  : list (Z * nat) :=
  [(slot f 0, List.length (positions st))] ++
  (if bool_decide (vtype = PositionUV \/ vtype = PositionUVNormal)
   then [(slot f 1, List.length (uvs st))] else []) ++
  (if bool_decide (vtype = PositionUVNormal)
   then [(slot f 2, List.length (normals st))]
   else if bool_decide (vtype = PositionNormal)
   then [(slot f 1, List.length (normals st))] else []).

(** The coordinates of a vector, in order. *)
Definition floats3 (v : Vec3) : list F := [v.1.1; v.1.2; v.2].
Definition floats2 (t : Vec2) : list F := [t.1; t.2].

(** The floats of the bucket under a key, none when there is no bucket. *)
Definition bucketVertices (meshes : MeshMap) (key : string) : list F :=
  from_option Vertices [] (meshes !! key).

(** The number of bytes [c] in [s]. *)
Fixpoint countByte (c : ascii) (s : string) : nat :=
  match s with
  | EmptyString => 0%nat
  | String c' s' => ((if Ascii.eqb c' c then 1 else 0) + countByte c s')%nat
  end.

(** A decimal numeral of value [v] that fits an [int]: one or more digits. *)
Definition numeral (s : string) (v : Z) : Prop :=
  s <> "" /\ digitsValue s 0 = Some v /\ v <= maxInt.

(** Where a scanned number ends: at the end of the input or before a byte
    that is no digit. *)
Definition scanStops (rest : string) : Prop :=
  match rest with
  | EmptyString => True
  | String c _ => isDigit c = false
  end.

(** The well-formed tokens of each encoding, with the references they
    spell: [a], [a/b], [a/b/c] and [a//c] over numerals. *)
Inductive tokenOf : Z -> string -> list Z -> Prop :=
  | token_v a x :
      numeral a x -> tokenOf PositionOnly a [x]
  | token_v_vt a b x y :
      numeral a x -> numeral b y ->
      tokenOf PositionUV (a +:+ "/" +:+ b) [x; y]
  | token_v_vt_vn a b c x y z :
      numeral a x -> numeral b y -> numeral c z ->
      tokenOf PositionUVNormal (a +:+ "/" +:+ b +:+ "/" +:+ c) [x; y; z]
  | token_v_vn a c x z :
      numeral a x -> numeral c z ->
      tokenOf PositionNormal (a +:+ "//" +:+ c) [x; z].

(** [currentMaterial = name] *)
Definition setMaterial (st : ObjState) (name : string) : ObjState :=
  mkObjState (positions st) (normals st) (uvs st) (lineCounter st)
    (facesCounter st) name (_nsMap st).



(** Every material sits under its name. *)
Definition namesMatch (materials : MaterialMap) : Prop :=
  forall k r, materials !! k = Some r -> Name r = k.

(** The keywords of a geometry line that change the decoding state. *)
Definition objKeywords : list string := ["v"; "vn"; "vt"; "f"; "usemtl"; "mtllib"].

(** The keywords of a material line that [LoadMtl] acts on. *)
Definition mtlKeywords : list string :=
  ["newmtl"; "Ns"; "Ni"; "d"; "illum"; "Ka"; "Kd"; "Ke"; "Ki"; "Ks"].

(** A line without effect: blank, or with a keyword outside [keywords]. *)
Definition inert (keywords : list string) (rawText : string) : Prop :=
  match Fields rawText with
  | [] => True
  | key :: _ => key ∉ keywords
  end.

End Loader.

(** After the section, the types that depend on [F] take it explicitly. *)
Arguments Vec3 F : clear implicits.
Arguments Vec2 F : clear implicits.
Arguments Mesh F : clear implicits.
Arguments Material F : clear implicits.
Arguments Store F : clear implicits.
Arguments ObjState F : clear implicits.

(** ** IEEE 754 binary32 *)

Module Binary32.

Definition prec : Z := 24.
Definition emax : Z := 128.

Definition zero : spec_float := S754_zero false.
Definition one : spec_float := SFone prec emax.
Definition sub : spec_float -> spec_float -> spec_float := SFsub prec emax.
Definition mul : spec_float -> spec_float -> spec_float := SFmul prec emax.

(** The binary32 nearest to [n / d], ties to even, for [0 <= n] and
    [0 < d]: the quotient is taken with at least 27 bits and the remainder
    folded into one more low bit, which the rounding of [binary_round] then
    sees as a sticky bit. *)
Definition roundRatio (neg : bool) (n d : Z) : spec_float :=
  if n =? 0 then S754_zero neg
  else
    let s := Z.max 0 (Z.log2 d + 27 - Z.log2 n) in
    let q := (n * 2 ^ s) / d in
    let r := (n * 2 ^ s) mod d in
    let m := 2 * q + (if r =? 0 then 0 else 1) in
    binary_round prec emax neg (Z.to_pos m) (- s - 1).

(** *** [strconv.ParseFloat(s, 32)] *)

(** [c] with an upper-case ASCII letter made lower-case. *)
Definition lower (c : ascii) : ascii :=
  let n := nat_of_ascii c in
  if ((65 <=? n) && (n <=? 90))%nat then ascii_of_nat (n + 32) else c.

Fixpoint lowerCase (s : string) : string :=
  match s with
  | EmptyString => EmptyString
  | String c r => String (lower c) (lowerCase r)
  end.

(** [special]: the infinities, with an optional sign, and the NaN, without
    one, whatever the case of their letters. *)
Definition special (s : string) : option spec_float :=
  let t := lowerCase s in
  if String.eqb t "inf" || String.eqb t "infinity"
     || String.eqb t "+inf" || String.eqb t "+infinity"
  then Some (S754_infinity false)
  else if String.eqb t "-inf" || String.eqb t "-infinity"
  then Some (S754_infinity true)
  else if String.eqb t "nan" then Some S754_nan
  else None.

Definition isHexLetter (c : ascii) : bool :=
  let n := nat_of_ascii (lower c) in ((97 <=? n) && (n <=? 102))%nat.

Definition hexLetterVal (c : ascii) : Z := Z.of_nat (nat_of_ascii (lower c)) - 87.

(** What the first loop of [readFloat] has read: the digits without the
    leading zeros, as a number in the base of the literal, how many they
    are, and the position of the point. *)
Record digitsRead : Type := mkDigitsRead {
  mantissa : Z;
  nd : Z;
  dp : Z;
  sawdot : bool;
  sawdigits : bool
}.

(** The first loop of [readFloat]: digits, underscores and at most one
    point.  It returns what is left of the input. *)
Fixpoint readDigits (hex : bool) (s : string) (st : digitsRead)
  : digitsRead * string :=
  let base := if hex then 16 else 10 in
  match s with
  | EmptyString => (st, EmptyString)
  | String c r =>
      if Ascii.eqb c "_" then readDigits hex r st
      else if Ascii.eqb c "." then
        if sawdot st then (st, s)
        else readDigits hex r
               (mkDigitsRead (mantissa st) (nd st) (nd st) true (sawdigits st))
      else if isDigit c then
        if Ascii.eqb c "0" && (nd st =? 0) then
          readDigits hex r
            (mkDigitsRead (mantissa st) (nd st) (dp st - 1) (sawdot st) true)
        else
          readDigits hex r
            (mkDigitsRead (mantissa st * base + digitVal c) (nd st + 1) (dp st)
               (sawdot st) true)
      else if hex && isHexLetter c then
        readDigits hex r
          (mkDigitsRead (mantissa st * 16 + hexLetterVal c) (nd st + 1) (dp st)
             (sawdot st) true)
      else (st, s)
  end.

(** The digits of the exponent, to the end of the input: the exponent stops
    growing once it has reached 10000. *)
Fixpoint readExponent (s : string) (e : Z) : option Z :=
  match s with
  | EmptyString => Some e
  | String c r =>
      if Ascii.eqb c "_" then readExponent r e
      else if isDigit c then
        readExponent r (if e <? 10000 then e * 10 + digitVal c else e)
      else None
  end.

(** [underscoreOK]: an underscore stands between two digits, or between a
    base prefix and a digit. *)
Inductive lastSeen : Type := SeenNothing | SeenDigit | SeenUnderscore | SeenOther.

Fixpoint underscoreLoop (hex : bool) (s : string) (saw : lastSeen) : bool :=
  match s with
  | EmptyString => match saw with SeenUnderscore => false | _ => true end
  | String c r =>
      if isDigit c || hex && isHexLetter c then underscoreLoop hex r SeenDigit
      else if Ascii.eqb c "_" then
        match saw with
        | SeenDigit => underscoreLoop hex r SeenUnderscore
        | _ => false
        end
      else
        match saw with
        | SeenUnderscore => false
        | _ => underscoreLoop hex r SeenOther
        end
  end.

Definition underscoreOK (s : string) : bool :=
  let s1 :=
    match s with
    | String "+" r => r
    | String "-" r => r
    | _ => s
    end in
  match s1 with
  | String "0" (String c r) =>
      if Ascii.eqb (lower c) "b" || Ascii.eqb (lower c) "o" then
        underscoreLoop false r SeenDigit
      else if Ascii.eqb (lower c) "x" then underscoreLoop true r SeenDigit
      else underscoreLoop false s1 SeenNothing
  | _ => underscoreLoop false s1 SeenNothing
  end.

(** [strconv.ParseFloat(s, 32)] when its error is nil, [None] when it is
    not.  The literals are those of [special] and of [readFloat]: an
    optional sign, decimal digits with at most one point and an optional
    exponent [e], or [0x], hexadecimal digits with at most one point and an
    exponent [p]; at least one digit; underscores as [underscoreOK] allows
    them; nothing after.  The value is the binary32 nearest to the literal,
    ties to even, which is what the conversions of [strconv] compute; a
    literal that rounds to an infinity is a range error. *)
Definition parseFloat32 (s : string) : option spec_float :=
  match special s with
  | Some x => Some x
  | None =>
      let '(neg, s1) :=
        match s with
        | String "+" r => (false, r)
        | String "-" r => (true, r)
        | _ => (false, s)
        end in
      let '(hex, s2) :=
        match s1 with
        | String "0" (String c (String c' r)) =>
            if Ascii.eqb (lower c) "x" then (true, String c' r) else (false, s1)
        | _ => (false, s1)
        end in
      let '(d, s3) := readDigits hex s2 (mkDigitsRead 0 0 0 false false) in
      let point := if sawdot d then dp d else nd d in
      let exponent :=
        match s3 with
        | EmptyString => if hex then None else Some 0
        | String c r =>
            if Ascii.eqb (lower c) (if hex then "p" else "e") then
              let '(eneg, r1) :=
                match r with
                | String "+" r' => (false, r')
                | String "-" r' => (true, r')
                | _ => (false, r)
                end in
              match r1 with
              | String c1 _ =>
                  if isDigit c1 then
                    match readExponent r1 0 with
                    | Some e => Some (if eneg then - e else e)
                    | None => None
                    end
                  else None
              | EmptyString => None
              end
            else None
        end in
      match exponent with
      | Some e =>
          if negb (sawdigits d) || negb (underscoreOK s) then None
          else
            let x :=
              if hex then
                if mantissa d =? 0 then S754_zero neg
                else binary_round prec emax neg (Z.to_pos (mantissa d))
                       (4 * point + e - 4 * nd d)
              else
                let k := point + e - nd d in
                if 0 <=? k then roundRatio neg (mantissa d * 10 ^ k) 1
                else roundRatio neg (mantissa d) (10 ^ (- k)) in
            match x with
            | S754_infinity _ => None
            | _ => Some x
            end
      | None => None
      end
  end.

#[export] Instance float32 : Float32 spec_float := {
  f32_zero := zero;
  f32_sub := sub;
  f32_mul := mul;
  ParseFloat := parseFloat32
}.

End Binary32.

(** ** Scenes for the examples *)

Module Scene.

Definition noFiles : string -> option File := fun _ => None.

Definition o : Vec3 spec_float := (Binary32.zero, Binary32.zero, Binary32.zero).
Definition ex : Vec3 spec_float := (Binary32.one, Binary32.zero, Binary32.zero).
Definition ey : Vec3 spec_float := (Binary32.zero, Binary32.one, Binary32.zero).
Definition ez : Vec3 spec_float := (Binary32.zero, Binary32.zero, Binary32.one).

(** The triangle (0,0,0), (1,0,0), (0,1,0), one normal and one pair of
    texture coordinates, after five lines. *)
Definition triangleState : ObjState spec_float :=
  mkObjState [o; ex; ey] [ez] [(Binary32.zero, Binary32.zero)] 5 0 "default" ∅.

Definition emptyStore : Store spec_float := mkStore ∅ ∅.

(** A scene whose last record fails after a face was written, and one whose
    material library fails after a material was. *)
Definition files (path : string) : option File :=
  if String.eqb path "scene.obj" then
    Some (mkFile ["mtllib wood.mtl"; "v 0 0 0"; "v 1 0 0"; "v 0 1 0";
                  "f 1 2 3"; "f 1 2"] false)
  else if String.eqb path "wood.mtl" then
    Some (mkFile ["newmtl wood"; "Kd 0.5 0.3 0.1"] false)
  else if String.eqb path "broken.obj" then
    Some (mkFile ["mtllib broken.mtl"] false)
  else if String.eqb path "broken.mtl" then
    Some (mkFile ["newmtl wood"; "Kd 0.5 0.3"] false)
  else None.

(** A triangle, from its text. *)
Definition triFile (path : string) : option File :=
  if String.eqb path "tri.obj" then
    Some (mkFile ["# a triangle"; "v 0 0 0"; "v 1 0 0"; "v 0 1 0"; "f 1 2 3"] false)
  else None.

(** Small integers in binary32, [m * 2^e] with a mantissa of 24 bits. *)
Definition two : spec_float := S754_finite false 8388608 (-22).
Definition three : spec_float := S754_finite false 12582912 (-22).
Definition four : spec_float := S754_finite false 8388608 (-21).
Definition five : spec_float := S754_finite false 10485760 (-21).
Definition six : spec_float := S754_finite false 12582912 (-21).
Definition seven : spec_float := S754_finite false 14680064 (-21).
Definition eight : spec_float := S754_finite false 8388608 (-20).
Definition minusFive : spec_float := S754_finite true 10485760 (-21).

(** A triangle away from the origin, with edges (1,2,4) and (3,1,6) from its
    first vertex. *)
Definition slantFile (path : string) : option File :=
  if String.eqb path "slant.obj" then
    Some (mkFile ["v 1 1 1"; "v 2 3 5"; "v 4 2 7"; "f 1 2 3"] false)
  else None.

(** A triangle whose file the scanner could not read to the end. *)
Definition cutFile (path : string) : option File :=
  if String.eqb path "cut.obj" then
    Some (mkFile ["v 0 0 0"; "v 1 0 0"; "v 0 1 0"; "f 1 2 3"] true)
  else None.

End Scene.

(** ** More scenes *)

Module Scene2.

(** A geometry file of comments, blank lines and keywords the decoder does
    not know, and one that names a library that is there and one that is
    not. *)
Definition files (path : string) : option File :=
  if String.eqb path "notes.obj" then
    Some (mkFile ["# a cube"; ""; "o cube"; "s off"; "g side top"; "#end"] false)
  else if String.eqb path "wood.mtl" then
    Some (mkFile ["newmtl wood"; "Kd 0.5 0.3 0.1"] false)
  else if String.eqb path "libs.obj" then
    Some (mkFile ["mtllib wood.mtl none.mtl"; "v 0 0 0"] false)
  else None.

End Scene2.

(** Every reference of every token is in range. *)
Ltac all_in_range :=
  repeat match goal with |- Forall _ _ => constructor end;
  unfold inRange, slot, uvIdxOf, nIdxOf; simpl; lia.


(** * Properties *)

(** ** The run-time model *)

Lemma Split_nonempty (s : string) (sep : ascii) : Split s sep <> [].
Proof.
  induction s as [|c s IH]; simpl; [discriminate|].
  destruct (Ascii.eqb c sep); [discriminate|].
  destruct (Split s sep); discriminate.
Qed.

Lemma index_Ok {A} (s : list A) (i : Z) (x : A) :
  index s i = Ok x <-> 0 <= i /\ s !! Z.to_nat i = Some x.
Proof.
  unfold index.
  destruct (0 <=? i) eqn:H0; destruct (i <? Z.of_nat (List.length s)) eqn:H1;
    simpl; try (split; [discriminate|]).
  - destruct (s !! Z.to_nat i) eqn:E.
    + split; [intros [= ->]; split; [lia|done] | intros [_ [= ->]]; done].
    + split; [discriminate | intros [_ ?]; discriminate].
  - intros [_ Hl]. apply lookup_lt_Some in Hl. lia.
  - intros [? _]. lia.
  - intros [? _]. lia.
Qed.

Lemma index_not_Ok {A} (s : list A) (i : Z) :
  i < 0 \/ Z.of_nat (List.length s) <= i -> index s i = Panic IndexOutOfRange.
Proof.
  intros Hi. unfold index.
  destruct (0 <=? i) eqn:H0; destruct (i <? Z.of_nat (List.length s)) eqn:H1;
    simpl; try reflexivity; lia.
Qed.

Lemma index_cases {A} (s : list A) (i : Z) :
  (exists x, index s i = Ok x) \/ index s i = Panic IndexOutOfRange.
Proof.
  unfold index.
  destruct ((0 <=? i) && (i <? Z.of_nat (List.length s))); [|by right].
  destruct (s !! Z.to_nat i); [left; eauto | by right].
Qed.

Lemma wrap64_id (z : Z) : minInt <= z <= maxInt -> wrap64 z = z.
Proof.
  unfold wrap64, minInt, maxInt. intros Hz.
  rewrite Z.mod_small; lia.
Qed.

Lemma wrap64_range (z : Z) : minInt <= wrap64 z <= maxInt.
Proof.
  unfold wrap64, minInt, maxInt.
  pose proof (Z.mod_pos_bound (z + 2 ^ 63) (2 ^ 64) ltac:(lia)). lia.
Qed.

Lemma wrap64_below : wrap64 (minInt - 1) = maxInt.
Proof. vm_compute. reflexivity. Qed.

(** A reference between 1 and the length of the array is the element
    before it.  The reference is an [int]. *)
Lemma resolve_in_range {A} (arr : list A) (i : Z) :
  i <= maxInt ->
  1 <= i <= Z.of_nat (List.length arr) ->
  exists x, arr !! Z.to_nat (i - 1) = Some x /\ resolve arr i = Ok x.
Proof.
  intros Hm Hi.
  destruct (lookup_lt_is_Some_2 arr (Z.to_nat (i - 1)) ltac:(lia)) as [x Hx].
  exists x. split; [done|].
  unfold resolve.
  rewrite wrap64_id by (unfold minInt, maxInt in *; lia).
  apply index_Ok. split; [lia|done].
Qed.

(** The reference 0 and a reference past the end of the array panic. *)
Lemma resolve_out_of_range {A} (arr : list A) (i : Z) :
  i <= maxInt ->
  i = 0 \/ Z.of_nat (List.length arr) < i ->
  resolve arr i = Panic IndexOutOfRange.
Proof.
  intros Hm Hi. unfold resolve.
  rewrite wrap64_id by (unfold minInt, maxInt in *; lia).
  apply index_not_Ok. lia.
Qed.

(** So does every other reference, in an array short enough to be a Go
    slice. *)
Lemma resolve_not_in_range {A} (arr : list A) (i : Z) :
  Z.of_nat (List.length arr) <= maxInt ->
  minInt <= i <= maxInt ->
  ~ (1 <= i <= Z.of_nat (List.length arr)) ->
  resolve arr i = Panic IndexOutOfRange.
Proof.
  intros Hlen Hm Hi. unfold resolve.
  destruct (Z.eq_dec i minInt) as [->|Hne].
  - rewrite wrap64_below. apply index_not_Ok. lia.
  - rewrite wrap64_id by (unfold minInt, maxInt in *; lia).
    apply index_not_Ok. lia.
Qed.

Lemma resolve_cases {A} (arr : list A) (i : Z) :
  (exists x, resolve arr i = Ok x) \/ resolve arr i = Panic IndexOutOfRange.
Proof. apply index_cases. Qed.

(** *** Scanned integers are [int]s *)

Lemma ParseInt_range (s : string) (v : Z) :
  ParseInt s = Some v -> minInt <= v <= maxInt.
Proof.
  unfold ParseInt.
  destruct (match s with
            | String "+" r => (false, r)
            | String "-" r => (true, r)
            | _ => (false, s)
            end) as [neg body].
  destruct body; [discriminate|].
  destruct (digitsValue _ 0) as [n|]; [|discriminate].
  destruct (_ && _) eqn:E; [|discriminate].
  intros [= <-]. lia.
Qed.

Lemma scanInt_range (s : string) (v : Z) (rest : string) :
  scanInt s = Some (v, rest) -> minInt <= v <= maxInt.
Proof.
  unfold scanInt.
  destruct (SkipSpace s 0) as [s0|]; [|discriminate].
  destruct (match s0 with
            | String "+" r => ("+", r)
            | String "-" r => ("-", r)
            | _ => ("", s0)
            end) as [sign s1].
  destruct (acceptRun isDigit s1) as [tok rest'].
  destruct tok; [discriminate|].
  destruct (ParseInt _) eqn:E; [|discriminate].
  intros [= <- _]. by apply ParseInt_range in E.
Qed.

Lemma Fscanf_range (format : list fmtItem) (input : string) :
  Forall (fun v => minInt <= v <= maxInt) (Fscanf input format).
Proof.
  revert input. induction format as [|[|c] format IH]; intros input; simpl.
  - constructor.
  - destruct (scanInt input) as [[v rest]|] eqn:E; [|constructor].
    constructor; [by apply scanInt_range in E | apply IH].
  - destruct input as [|c' rest]; [constructor|].
    destruct (Ascii.eqb c c'); [apply IH | constructor].
Qed.

Lemma operand_range (stored : list Z) (k : nat) :
  Forall (fun v => minInt <= v <= maxInt) stored ->
  minInt <= operand stored k <= maxInt.
Proof.
  intros Hs. unfold operand.
  destruct (nth_in_or_default k stored 0) as [Hin| ->].
  - rewrite Forall_forall in Hs. apply Hs. by apply list_elem_of_In.
  - unfold minInt, maxInt. lia.
Qed.

Lemma getFaceData_range (p : string) (vtype : Z) :
  Forall (fun v => minInt <= v <= maxInt) (getFaceData p vtype).
Proof.
  destruct vtype as [|[[?|?|]|[?|?|]|]|?]; unfold getFaceData;
    repeat (constructor; [apply operand_range, Fscanf_range|]); constructor.
Qed.

(** *** Fields and scanned numbers on some inputs *)

(** The fields of a line end at the space runes beyond ASCII too: here the
    no-break space U+00A0, the next line U+0085, the en quad U+2000 and the
    ideographic space U+3000.  A byte of such a rune on its own, or a rune
    that is no space (U+200B), is part of a field. *)
Example Fields_unicode_spaces :
  Fields ("v" +:+ String "194" (String "160" "1") +:+
          String "194" (String "133" "2") +:+
          String "226" (String "128" (String "128" "3")) +:+
          String "227" (String "128" (String "128" ""))) = ["v"; "1"; "2"; "3"] /\
  Fields (" f" +:+ String "009" "1 " +:+ String "013" "") = ["f"; "1"] /\
  Fields (String "160" "a b") = [String "160" "a"; "b"] /\
  Fields (String "226" (String "128" (String "139" "a"))) =
  [String "226" (String "128" (String "139" "a"))].
Proof. repeat split; vm_compute; reflexivity. Qed.

(** The verb [%d] reads decimal digits only: it stops at an underscore as
    at any other byte, and keeps the digits before it. *)
Example getFaceData_underscore :
  getFaceData "1_0" PositionOnly = [1] /\
  getFaceData "1//1_" PositionNormal = [1; 1] /\
  getFaceData "1_/2" PositionUV = [1; 0] /\
  getFaceData "_1" PositionOnly = [0] /\
  getFaceData "+7/-2" PositionUV = [7; -2].
Proof. repeat split; vm_compute; reflexivity. Qed.

(** ** Face tokens *)

Lemma getFaceType_codes (p : string) :
  getFaceType p ∈ [UndefinedFace; PositionOnly; PositionUV; PositionUVNormal; PositionNormal].
Proof.
  unfold getFaceType.
  repeat match goal with |- context [if ?b then _ else _] => destruct b end;
    set_solver.
Qed.

Lemma getFaceType_examples :
  getFaceType "1" = PositionOnly /\ getFaceType "1/2" = PositionUV /\
  getFaceType "1/2/3" = PositionUVNormal /\ getFaceType "1//3" = PositionNormal /\
  getFaceType "1/2/3/4" = UndefinedFace.
Proof. repeat split; reflexivity. Qed.

(** The classification is undefined exactly for more than three segments. *)
Lemma getFaceType_undefined_iff (p : string) :
  getFaceType p = UndefinedFace <-> (3 < List.length (Split p "/"))%nat.
Proof.
  unfold getFaceType, UndefinedFace.
  pose proof (Split_nonempty p "/") as Hne.
  destruct (Split p "/") as [|a [|b [|c [|d l]]]]; simpl; try done.
  - split; [discriminate | lia].
  - split; [discriminate | lia].
  - destruct (negb _); split; (discriminate || lia).
  - split; [lia | done].
Qed.

(** C3: the empty token is not undefined.  [strings.Split] gives it one
    (empty) segment, never zero, so the guard for an invalid type does not
    fire: the token is classified PositionOnly and decoded as the reference
    0.  (The shapes ["1"], ["1/2"], ["1/2/3"], ["1//3"] and ["1/2/3/4"] are
    in [getFaceType_examples].) *)
Theorem getFaceType_empty_token :
  getFaceType "" = PositionOnly /\
  (forall p, (0 < List.length (Split p "/"))%nat) /\
  getFaceType (Trim "/" "/") = PositionOnly /\
  getFaceData "" PositionOnly = [0].
Proof.
  split; [reflexivity|]. split; [|split; reflexivity].
  intros p. pose proof (Split_nonempty p "/") as Hne.
  destruct (Split p "/"); [done | simpl; lia].
Qed.

Section Records.

Context {F : Type} {ops : Float32 F}.
Variable fs : string -> option File.

Implicit Types (st : ObjState F) (h : Store F) (options : Options).
Implicit Types (ps ns : list (Vec3 F)) (ts : list (Vec2 F)).
Implicit Types (va vb vc na nb nc : Vec3 F) (ta tb tc : Vec2 F).

Lemma bind_Ok {A B} (a : A) (k : A -> result B) : (Ok a ≫= k) = k a.
Proof. reflexivity. Qed.

(** ** Arity of the records *)

(** C4: a face record with one or two tokens is refused as too short and one
    with more than three as unsupported, the maps untouched; but the record
    with no token at all panics: [parts[0]] is read before the length of
    [parts] is looked at. *)
Theorem face_token_count options st h :
  objRecord fs options ["f"] st h = (Panic IndexOutOfRange, h) /\
  (forall p, objRecord fs options ["f"; p] st h =
     (Error (errorInvalidFormat "Faces cannot have length less than 3" [p]), h)) /\
  (forall p q, objRecord fs options ["f"; p; q] st h =
     (Error (errorInvalidFormat "Faces cannot have length less than 3" [p; q]), h)) /\
  (forall p q r s rest, objRecord fs options ("f" :: p :: q :: r :: s :: rest) st h =
     (Error (errorNotSupported "Only Supports faces with length 3" (p :: q :: r :: s :: rest)), h)).
Proof.
  repeat split; intros; reflexivity.
Qed.

(** A face record of empty tokens is not refused either: each token is
    PositionOnly with the reference 0, and resolving it panics. *)
Lemma face_of_empty_tokens_panics options st h :
  objRecord fs options ["f"; "/"; "/"; "/"] st h = (Panic IndexOutOfRange, h).
Proof. reflexivity. Qed.

(** C9: a [v] record with fewer than three fields is not refused with a
    format error: [parts[:3]] panics, before any field is parsed. *)
Theorem v_record_too_short options st h :
  objRecord fs options ["v"] st h = (Panic SliceBoundsOutOfRange, h) /\
  (forall a, objRecord fs options ["v"; a] st h = (Panic SliceBoundsOutOfRange, h)) /\
  (forall a b, objRecord fs options ["v"; a; b] st h = (Panic SliceBoundsOutOfRange, h)).
Proof.
  repeat split; intros; reflexivity.
Qed.

(** A [v] record with more than three fields is a format error. *)
Lemma v_record_too_long options st h a b c d rest :
  objRecord fs options ("v" :: a :: b :: c :: d :: rest) st h =
  (Error (errorInvalidFormat "Vertex Position can only have 3 elements"
            (a :: b :: c :: d :: rest)), h).
Proof. reflexivity. Qed.

(** A [v] record with three fields that parse appends their values, in
    order, to the position array and changes nothing else. *)
Lemma v_record_appends options st h a b c x y z :
  ParseFloat a = Some x -> ParseFloat b = Some y -> ParseFloat c = Some z ->
  objRecord fs options ["v"; a; b; c] st h =
  (Ok (mkObjState (positions st ++ [(x, y, z)]) (normals st) (uvs st)
         (lineCounter st) (facesCounter st) (currentMaterial st) (_nsMap st)), h).
Proof.
  intros Ha Hb Hc. unfold objRecord. simpl.
  unfold sliceToFloat32. simpl. rewrite Ha. simpl. rewrite Hb. simpl.
  rewrite Hc. reflexivity.
Qed.

(** A field that does not parse fails the record with the error of
    [strconv]. *)
Lemma v_record_malformed options st h a b c :
  ParseFloat a = None ->
  objRecord fs options ["v"; a; b; c] st h = (Error (NumError "ParseFloat" a), h).
Proof.
  intros Ha. unfold objRecord. simpl.
  unfold sliceToFloat32. simpl. rewrite Ha. reflexivity.
Qed.

(** ** The tokens of a face record *)

Lemma facesLoop_Ok (all : list string) (vtype : Z) (ps : list string)
    (faces faces' : list (list Z)) :
  facesLoop all vtype ps faces = Ok faces' ->
  faces' = faces ++ map (fun p => getFaceData (Trim p "/") vtype) ps /\
  Forall (fun p => getFaceType (Trim p "/") = vtype) ps.
Proof.
  revert faces. induction ps as [|p ps IH]; intros faces; simpl.
  - intros [= <-]. by rewrite app_nil_r.
  - destruct (vtype =? getFaceType (Trim p "/")) eqn:E; simpl; [|discriminate].
    intros Hl. apply IH in Hl as [-> Hall]. rewrite <- app_assoc. split; [done|].
    constructor; [lia | done].
Qed.

Lemma facesLoop_consistent (all : list string) (vtype : Z) (ps : list string)
    (faces : list (list Z)) :
  Forall (fun p => getFaceType (Trim p "/") = vtype) ps ->
  facesLoop all vtype ps faces =
  Ok (faces ++ map (fun p => getFaceData (Trim p "/") vtype) ps).
Proof.
  revert faces. induction ps as [|p ps IH]; intros faces Hall; simpl.
  - by rewrite app_nil_r.
  - inversion Hall as [|? ? Hp Hps]; subst.
    rewrite Z.eqb_refl. simpl. rewrite IH by done. by rewrite <- app_assoc.
Qed.

(** An accepted record has three tokens of one defined encoding, and one
    list of references per token. *)
Lemma faceTokens_Ok (parts : list string) (vtype : Z) (faces : list (list Z)) :
  faceTokens parts = Ok (vtype, faces) ->
  exists p1 p2 p3,
    parts = [p1; p2; p3] /\
    vtype ∈ [PositionOnly; PositionUV; PositionUVNormal; PositionNormal] /\
    getFaceType (Trim p1 "/") = vtype /\
    getFaceType (Trim p2 "/") = vtype /\
    getFaceType (Trim p3 "/") = vtype /\
    faces = [getFaceData (Trim p1 "/") vtype; getFaceData (Trim p2 "/") vtype;
             getFaceData (Trim p3 "/") vtype].
Proof.
  clear fs.
  unfold faceTokens.
  destruct parts as [|p1 [|p2 [|p3 [|p4 rest]]]]; try discriminate.
  change (index [p1; p2; p3] 0) with (Ok p1). rewrite bind_Ok.
  cbn [List.length Nat.ltb Nat.leb Nat.eqb negb].
  destruct (getFaceType (Trim p1 "/") =? -1) eqn:E1; [discriminate|].
  destruct (facesLoop _ _ _ _) as [fs'| |] eqn:El; try discriminate.
  rewrite bind_Ok. apply facesLoop_Ok in El as [-> Hall].
  simpl. intros [= <- <-].
  exists p1, p2, p3. split; [done|].
  inversion Hall as [|? ? H1 Hall2]; subst.
  inversion Hall2 as [|? ? H2 Hall3]; subst.
  inversion Hall3 as [|? ? H3 _]; subst.
  repeat split; try done.
  pose proof (getFaceType_codes (Trim p1 "/")) as Hc.
  apply Z.eqb_neq in E1. unfold UndefinedFace in Hc.
  rewrite !elem_of_cons in Hc. rewrite !elem_of_cons. tauto.
Qed.

Lemma faceTokens_consistent (p1 p2 p3 : string) (vtype : Z) :
  vtype <> UndefinedFace ->
  getFaceType (Trim p1 "/") = vtype ->
  getFaceType (Trim p2 "/") = vtype ->
  getFaceType (Trim p3 "/") = vtype ->
  faceTokens [p1; p2; p3] =
  Ok (vtype, [getFaceData (Trim p1 "/") vtype; getFaceData (Trim p2 "/") vtype;
              getFaceData (Trim p3 "/") vtype]).
Proof.
  intros Hv H1 H2 H3. unfold faceTokens.
  change (index [p1; p2; p3] 0) with (Ok p1). rewrite bind_Ok.
  cbn [List.length Nat.ltb Nat.leb Nat.eqb negb].
  rewrite H1. apply Z.eqb_neq in Hv. unfold UndefinedFace in Hv. rewrite Hv.
  rewrite facesLoop_consistent by (repeat constructor; done).
  reflexivity.
Qed.

(** The references of [getFaceData] sit where [uvIdx] and [nIdx] look for
    them, and are [int]s. *)
Lemma getFaceData_slots (p : string) (vtype : Z) :
  vtype ∈ [PositionOnly; PositionUV; PositionUVNormal; PositionNormal] ->
  let f := getFaceData p vtype in
  index f 0 = Ok (slot f 0) /\
  (uvIdxOf vtype <> -1 -> index f (uvIdxOf vtype) = Ok (slot f (uvIdxOf vtype))) /\
  (nIdxOf vtype <> -1 -> index f (nIdxOf vtype) = Ok (slot f (nIdxOf vtype))) /\
  forall k, minInt <= slot f k <= maxInt.
Proof.
  intros Hv f. repeat split.
  - unfold f. set_unfold.
    destruct Hv as [->|[->|[->|[->| []]]]]; reflexivity.
  - unfold f. set_unfold.
    destruct Hv as [->|[->|[->|[->| []]]]]; intros Hk; try reflexivity; done.
  - unfold f. set_unfold.
    destruct Hv as [->|[->|[->|[->| []]]]]; intros Hk; try reflexivity; done.
  - apply operand_range, getFaceData_range.
  - apply operand_range, getFaceData_range.
Qed.

(** ** Index resolution in a triangle *)

Lemma deref_cases {A} (arr : list A) (f : list Z) (k : Z) :
  (exists x, deref arr f k = Ok x) \/ deref arr f k = Panic IndexOutOfRange.
Proof.
  unfold deref. destruct (index_cases f k) as [[i ->]| ->]; [|by right].
  rewrite bind_Ok. apply resolve_cases.
Qed.

Lemma triangle_Ok options ps ns ts uvIdx nIdx f1 f2 f3 vertices
    va vb vc ta tb tc na nb nc :
  carried ps ns ts uvIdx nIdx f1 va ta na ->
  carried ps ns ts uvIdx nIdx f2 vb tb nb ->
  carried ps ns ts uvIdx nIdx f3 vc tc nc ->
  let uv := negb (uvIdx =? -1) in
  let pick n := if negb (nIdx =? -1) then n else flatNormal va vb vc in
  triangle options ps ns ts uvIdx nIdx f1 f2 f3 vertices =
  Ok (vertices ++
      vertexData uv (NeedNormals options) va ta (pick na) ++
      vertexData uv (NeedNormals options) vb tb (pick nb) ++
      vertexData uv (NeedNormals options) vc tc (pick nc)).
Proof.
  intros (Ha & Hta & Hna) (Hb & Htb & Hnb) (Hc & Htc & Hnc) uv pick.
  unfold triangle. rewrite Ha, Hb, Hc, !bind_Ok.
  subst uv pick. unfold vertexData, flatNormal.
  destruct (Z.eqb_spec nIdx (-1)) as [En|En];
    destruct (Z.eqb_spec uvIdx (-1)) as [Eu|Eu]; cbn [negb];
    try rewrite (Hna En), (Hnb En), (Hnc En);
    try rewrite (Hta Eu), (Htb Eu), (Htc Eu);
    destruct (NeedNormals options); cbn -[slice3 slice2 cross sub3];
    rewrite ?app_nil_r, <- ?app_assoc; reflexivity.
Qed.

Lemma triangle_cases options ps ns ts uvIdx nIdx f1 f2 f3 vertices :
  (exists vs, triangle options ps ns ts uvIdx nIdx f1 f2 f3 vertices = Ok vs) \/
  triangle options ps ns ts uvIdx nIdx f1 f2 f3 vertices = Panic IndexOutOfRange.
Proof.
  unfold triangle.
  destruct (deref_cases ps f1 0) as [[va ->]| ->]; [|by right].
  destruct (deref_cases ps f2 0) as [[vb ->]| ->]; [|by right].
  destruct (deref_cases ps f3 0) as [[vc ->]| ->]; [|by right].
  rewrite !bind_Ok.
  destruct (negb (nIdx =? -1)).
  - destruct (deref_cases ns f1 nIdx) as [[na ->]| ->]; [|by right].
    destruct (deref_cases ns f2 nIdx) as [[nb ->]| ->]; [|by right].
    destruct (deref_cases ns f3 nIdx) as [[nc ->]| ->]; [|by right].
    rewrite !bind_Ok.
    destruct (negb (uvIdx =? -1)); [|left; eexists; reflexivity].
    destruct (deref_cases ts f1 uvIdx) as [[ta ->]| ->]; [|by right].
    destruct (deref_cases ts f2 uvIdx) as [[tb ->]| ->]; [|by right].
    destruct (deref_cases ts f3 uvIdx) as [[tc ->]| ->]; [|by right].
    left; eexists; reflexivity.
  - destruct (NeedNormals options); cbv zeta; unfold mret, result_ret;
      rewrite bind_Ok;
      (destruct (negb (uvIdx =? -1)); [|left; eexists; reflexivity]);
      (destruct (deref_cases ts f1 uvIdx) as [[ta ->]| ->]; [|by right]);
      (destruct (deref_cases ts f2 uvIdx) as [[tb ->]| ->]; [|by right]);
      (destruct (deref_cases ts f3 uvIdx) as [[tc ->]| ->]; [|by right]);
      left; eexists; reflexivity.
Qed.

(** A triangle that does not panic resolved every reference it carries. *)
Lemma triangle_Ok_inv options ps ns ts uvIdx nIdx f1 f2 f3 vertices vs :
  triangle options ps ns ts uvIdx nIdx f1 f2 f3 vertices = Ok vs ->
  forall f, f ∈ [f1; f2; f3] ->
    (exists v, deref ps f 0 = Ok v) /\
    (uvIdx <> -1 -> exists t, deref ts f uvIdx = Ok t) /\
    (nIdx <> -1 -> exists n, deref ns f nIdx = Ok n).
Proof.
  unfold triangle. intros Ht.
  destruct (deref ps f1 0) as [va| |] eqn:Ea; try discriminate.
  destruct (deref ps f2 0) as [vb| |] eqn:Eb; try discriminate.
  destruct (deref ps f3 0) as [vc| |] eqn:Ec; try discriminate.
  rewrite !bind_Ok in Ht.
  assert (Hn : nIdx <> -1 -> exists na nb nc, deref ns f1 nIdx = Ok na /\
             deref ns f2 nIdx = Ok nb /\ deref ns f3 nIdx = Ok nc).
  { intros En. apply Z.eqb_neq in En. rewrite En in Ht. cbn [negb] in Ht.
    destruct (deref ns f1 nIdx) as [na| |]; try discriminate.
    destruct (deref ns f2 nIdx) as [nb| |]; try discriminate.
    destruct (deref ns f3 nIdx) as [nc| |]; try discriminate.
    by exists na, nb, nc. }
  assert (Hu : uvIdx <> -1 -> exists ta tb tc, deref ts f1 uvIdx = Ok ta /\
             deref ts f2 uvIdx = Ok tb /\ deref ts f3 uvIdx = Ok tc).
  { intros Eu. apply Z.eqb_neq in Eu. rewrite Eu in Ht. cbn [negb] in Ht.
    match type of Ht with (?n ≫= _) = _ => destruct n as [[[na nb] nc]| |] end;
      try discriminate.
    rewrite bind_Ok in Ht.
    destruct (deref ts f1 uvIdx) as [ta| |]; try discriminate.
    destruct (deref ts f2 uvIdx) as [tb| |]; try discriminate.
    destruct (deref ts f3 uvIdx) as [tc| |]; try discriminate.
    by exists ta, tb, tc. }
  intros f Hf. rewrite !elem_of_cons in Hf.
  destruct Hf as [->|[->|[->|Hf]]]; [| | |by apply elem_of_nil in Hf].
  - split; [eauto|]. split; intros E.
    + destruct (Hu E) as (? & ? & ? & ? & ? & ?); eauto.
    + destruct (Hn E) as (? & ? & ? & ? & ? & ?); eauto.
  - split; [eauto|]. split; intros E.
    + destruct (Hu E) as (? & ? & ? & ? & ? & ?); eauto.
    + destruct (Hn E) as (? & ? & ? & ? & ? & ?); eauto.
  - split; [eauto|]. split; intros E.
    + destruct (Hu E) as (? & ? & ? & ? & ? & ?); eauto.
    + destruct (Hn E) as (? & ? & ? & ? & ? & ?); eauto.
Qed.

(** One reference that does not resolve makes the triangle panic. *)
Lemma triangle_panics options ps ns ts uvIdx nIdx f1 f2 f3 vertices f :
  f ∈ [f1; f2; f3] ->
  deref ps f 0 = Panic IndexOutOfRange \/
  (uvIdx <> -1 /\ deref ts f uvIdx = Panic IndexOutOfRange) \/
  (nIdx <> -1 /\ deref ns f nIdx = Panic IndexOutOfRange) ->
  triangle options ps ns ts uvIdx nIdx f1 f2 f3 vertices = Panic IndexOutOfRange.
Proof.
  intros Hf Hbad.
  destruct (triangle_cases options ps ns ts uvIdx nIdx f1 f2 f3 vertices)
    as [[vs Hvs]|Hp]; [|done].
  destruct (triangle_Ok_inv _ _ _ _ _ _ _ _ _ _ _ Hvs f Hf) as ([v Hv] & Hu & Hn).
  destruct Hbad as [Hb|[[E Hb]|[E Hb]]].
  - congruence.
  - destruct (Hu E) as [t Ht]. congruence.
  - destruct (Hn E) as [n Hn']. congruence.
Qed.

(** ** Index resolution in a face record *)

Lemma objRecord_face options st h parts :
  objRecord fs options ("f" :: parts) st h =
  match faceVertices options st parts with
  | Ok (vtype, vertices) =>
      (Ok (countFace st),
       mkStore (writeBucket vtype (currentMaterial st) vertices (meshes h))
               (materials h))
  | Error e => (Error e, h)
  | Panic p => (Panic p, h)
  end.
Proof. reflexivity. Qed.

Lemma faceVertices_tokens options st parts vtype f1 f2 f3 :
  faceTokens parts = Ok (vtype, [f1; f2; f3]) ->
  faceVertices options st parts =
  vertices ← triangle options (positions st) (normals st) (uvs st)
               (uvIdxOf vtype) (nIdxOf vtype) f1 f2 f3 [];
  Ok (vtype, vertices).
Proof.
  intros Ht. unfold faceVertices. rewrite Ht, bind_Ok.
  cbn [trianglesLoop].
  destruct (triangle _ _ _ _ _ _ _ _ _ _); reflexivity.
Qed.

Lemma deref_slot {A} (arr : list A) (f : list Z) (k : Z) :
  index f k = Ok (slot f k) -> deref arr f k = resolve arr (slot f k).
Proof. intros Hk. unfold deref. by rewrite Hk. Qed.

Lemma elementAt_resolve {A} (d : A) (arr : list A) (i : Z) :
  i <= maxInt -> 1 <= i <= Z.of_nat (List.length arr) ->
  resolve arr i = Ok (elementAt d arr i).
Proof.
  intros Hm Hi. destruct (resolve_in_range arr i Hm Hi) as (x & Hx & ->).
  unfold elementAt. by rewrite nth_lookup, Hx.
Qed.

Lemma carried_in_range st (vtype : Z) (p : string) :
  vtype ∈ [PositionOnly; PositionUV; PositionUVNormal; PositionNormal] ->
  let f := getFaceData p vtype in
  Forall inRange (references st vtype f) ->
  carried (positions st) (normals st) (uvs st) (uvIdxOf vtype) (nIdxOf vtype) f
    (elementAt zero3 (positions st) (slot f 0))
    (elementAt zero2 (uvs st) (slot f (uvIdxOf vtype)))
    (elementAt zero3 (normals st) (slot f (nIdxOf vtype))).
Proof.
  intros Hv f Hall.
  destruct (getFaceData_slots p vtype Hv) as (H0 & Hu & Hn & Hr). fold f in H0, Hu, Hn, Hr.
  unfold references in Hall.
  apply Forall_app in Hall as [Hp Hall]. apply Forall_app in Hall as [Ht Hnr].
  split; [|split].
  - rewrite (deref_slot _ _ _ H0). apply elementAt_resolve; [apply Hr|].
    by inversion Hp.
  - intros E. rewrite (deref_slot _ _ _ (Hu E)).
    apply Z.eqb_neq in E. rewrite E in Ht. cbn [negb] in Ht.
    apply elementAt_resolve; [apply Hr|]. by inversion Ht.
  - intros E. rewrite (deref_slot _ _ _ (Hn E)).
    apply Z.eqb_neq in E. rewrite E in Hnr. cbn [negb] in Hnr.
    apply elementAt_resolve; [apply Hr|]. by inversion Hnr.
Qed.

(** With every carried reference in range the record yields the floats
    that [elementAt] designates. *)
Lemma faceVertices_in_range options st parts vtype faces :
  faceTokens parts = Ok (vtype, faces) ->
  Forall (fun f => Forall inRange (references st vtype f)) faces ->
  exists f1 f2 f3, faces = [f1; f2; f3] /\
    faceVertices options st parts = Ok (vtype, faceData options st vtype f1 f2 f3).
Proof.
  intros Ht Hall.
  destruct (faceTokens_Ok _ _ _ Ht) as (p1 & p2 & p3 & -> & Hv & _ & _ & _ & ->).
  do 3 eexists. split; [reflexivity|].
  rewrite (faceVertices_tokens _ _ _ _ _ _ _ Ht).
  inversion Hall as [|? ? H1 Hall2]; subst.
  inversion Hall2 as [|? ? H2 Hall3]; subst.
  inversion Hall3 as [|? ? H3 _]; subst.
  rewrite (triangle_Ok options _ _ _ _ _ _ _ _ []
             _ _ _ _ _ _ _ _ _
             (carried_in_range st vtype _ Hv H1)
             (carried_in_range st vtype _ Hv H2)
             (carried_in_range st vtype _ Hv H3)).
  reflexivity.
Qed.

(** A carried reference that does not resolve makes the record panic. *)
Lemma faceVertices_unresolved options st parts vtype faces f :
  faceTokens parts = Ok (vtype, faces) ->
  f ∈ faces ->
  resolve (positions st) (slot f 0) = Panic IndexOutOfRange \/
  (uvIdxOf vtype <> -1 /\
   resolve (uvs st) (slot f (uvIdxOf vtype)) = Panic IndexOutOfRange) \/
  (nIdxOf vtype <> -1 /\
   resolve (normals st) (slot f (nIdxOf vtype)) = Panic IndexOutOfRange) ->
  faceVertices options st parts = Panic IndexOutOfRange.
Proof.
  intros Ht Hf Hbad.
  destruct (faceTokens_Ok _ _ _ Ht) as (p1 & p2 & p3 & -> & Hv & _ & _ & _ & ->).
  rewrite (faceVertices_tokens _ _ _ _ _ _ _ Ht).
  assert (Hs : exists p, f = getFaceData p vtype).
  { rewrite !elem_of_cons in Hf.
    destruct Hf as [->|[->|[->|Hf]]]; eauto. by apply elem_of_nil in Hf. }
  destruct Hs as [p ->].
  destruct (getFaceData_slots p vtype Hv) as (H0 & Hu & Hn & _).
  rewrite (triangle_panics options _ _ _ _ _ _ _ _ [] _ Hf); [reflexivity|].
  destruct Hbad as [Hb|[[E Hb]|[E Hb]]].
  - left. by rewrite (deref_slot _ _ _ H0).
  - right; left. split; [done|]. by rewrite (deref_slot _ _ _ (Hu E)).
  - right; right. split; [done|]. by rewrite (deref_slot _ _ _ (Hn E)).
Qed.

Lemma faceTokens_slot_range parts vtype faces f k :
  faceTokens parts = Ok (vtype, faces) -> f ∈ faces ->
  minInt <= slot f k <= maxInt.
Proof.
  intros Ht Hf.
  destruct (faceTokens_Ok _ _ _ Ht) as (p1 & p2 & p3 & -> & Hv & _ & _ & _ & ->).
  rewrite !elem_of_cons in Hf.
  destruct Hf as [->|[->|[->|Hf]]]; [| | |by apply elem_of_nil in Hf];
    apply operand_range, getFaceData_range.
Qed.

Lemma tokenReferences_references st (vtype : Z) (f : list Z) :
  tokenReferences st vtype f = references st vtype f.
Proof.
  unfold tokenReferences, references, uvIdxOf, nIdxOf,
    PositionUV, PositionUVNormal, PositionNormal.
  destruct (Z.eqb_spec vtype 2) as [->|H2]; [reflexivity|].
  destruct (Z.eqb_spec vtype 1) as [->|H1]; [reflexivity|].
  destruct (Z.eqb_spec vtype 3) as [->|H3]; [reflexivity|].
  repeat case_bool_decide; try lia; try reflexivity.
Qed.

Lemma slice3_floats3 (v : Vec3 F) : slice3 v = floats3 v.
Proof. by destruct v as [[v0 v1] v2]. Qed.

Lemma slice2_floats2 (t : Vec2 F) : slice2 t = floats2 t.
Proof. by destruct t as [t0 t1]. Qed.

(** ** Buckets *)

Lemma writeBucket_other vtype cur vertices (meshes : gmap string (Mesh F)) key :
  key <> meshID vtype cur ->
  writeBucket vtype cur vertices meshes !! key = meshes !! key.
Proof.
  intros Hk. unfold writeBucket.
  destruct (negb _); [|done].
  rewrite lookup_alter_ne by done.
  destruct (meshes !! meshID vtype cur); [done|].
  by rewrite lookup_insert_ne.
Qed.

(** The bucket of the key is created when missing, with the encoding and
    the material of the record, and the floats go to its end. *)
Lemma writeBucket_key vtype cur vertices (meshes : gmap string (Mesh F)) :
  vertices <> [] ->
  writeBucket vtype cur vertices meshes !! meshID vtype cur =
  Some (appendVertices vertices
          (default (mkMesh [] vtype cur) (meshes !! meshID vtype cur))).
Proof.
  intros Hv. unfold writeBucket.
  destruct vertices as [|x vertices]; [done|]. cbn [List.length Nat.eqb negb].
  rewrite lookup_alter_eq.
  destruct (meshes !! meshID vtype cur) as [b|] eqn:E.
  - by rewrite E.
  - by rewrite lookup_insert_eq.
Qed.

Lemma writeBucket_vertices vtype cur vertices (meshes : gmap string (Mesh F)) :
  bucketVertices (writeBucket vtype cur vertices meshes) (meshID vtype cur) =
  bucketVertices meshes (meshID vtype cur) ++ vertices.
Proof.
  unfold bucketVertices.
  destruct vertices as [|x vertices].
  - unfold writeBucket. cbn [List.length Nat.eqb negb]. by rewrite app_nil_r.
  - rewrite writeBucket_key by done.
    by destruct (meshes !! meshID vtype cur).
Qed.

(** Writing a bucket removes none and only adds floats at the end. *)
Lemma writeBucket_grows vtype cur vertices (meshes : gmap string (Mesh F)) key b :
  meshes !! key = Some b ->
  exists b', writeBucket vtype cur vertices meshes !! key = Some b' /\
    Vertices b `prefix_of` Vertices b' /\
    Vtype b' = Vtype b /\ MaterialName b' = MaterialName b.
Proof.
  intros Hb.
  destruct (decide (key = meshID vtype cur)) as [->|Hne].
  - destruct vertices as [|x vertices].
    + exists b. by unfold writeBucket.
    + rewrite writeBucket_key, Hb by done. eexists. split; [done|].
      split; [|done]. by apply prefix_app_r.
  - exists b. by rewrite writeBucket_other.
Qed.

(** The key tells the encoding and the material apart. *)
Lemma meshID_inj (v1 v2 : Z) (m1 m2 : string) :
  v1 ∈ [PositionOnly; PositionUV; PositionUVNormal; PositionNormal] ->
  v2 ∈ [PositionOnly; PositionUV; PositionUVNormal; PositionNormal] ->
  meshID v1 m1 = meshID v2 m2 -> v1 = v2 /\ m1 = m2.
Proof.
  rewrite !elem_of_cons.
  intros [->|[->|[->|[->|H1]]]] [->|[->|[->|[->|H2]]]];
    try (by apply elem_of_nil in H1); try (by apply elem_of_nil in H2);
    unfold meshID;
    repeat match goal with
           | |- context [pretty ?z] =>
               let s := eval vm_compute in (pretty z) in
               change (pretty z) with s
           end;
    cbv [String.append]; intros Heq; split; congruence.
Qed.

(** ** Layout of the emitted vertices *)

Lemma uvIdxOf_carried (vtype : Z) :
  negb (uvIdxOf vtype =? -1) =
  bool_decide (vtype = PositionUV \/ vtype = PositionUVNormal).
Proof.
  unfold uvIdxOf, PositionUV, PositionUVNormal.
  destruct (Z.eqb_spec vtype 2), (Z.eqb_spec vtype 1); cbn [orb];
    symmetry; [apply bool_decide_eq_true_2 ..| apply bool_decide_eq_false_2]; lia.
Qed.

Lemma nIdxOf_carried (vtype : Z) :
  negb (nIdxOf vtype =? -1) =
  bool_decide (vtype = PositionUVNormal \/ vtype = PositionNormal).
Proof.
  unfold nIdxOf, PositionUVNormal, PositionNormal.
  destruct (Z.eqb_spec vtype 2), (Z.eqb_spec vtype 3); cbn;
    symmetry; [apply bool_decide_eq_true_2 ..| apply bool_decide_eq_false_2]; lia.
Qed.

(** C1: in a face record that passed the checks on its tokens, the
    references are those of slot 0 for the position, of slot 1 for the
    texture coordinates of [v/vt] and [v/vt/vn], and of slot 2 of [v/vt/vn]
    or slot 1 of [v//vn] for the normal.  When each of them lies between 1
    and the length of its array, the record appends to its bucket, for each
    vertex, the [(i-1)]-th elements of the arrays as they are at that
    moment ([flat] stands for the normal of a vertex that has no normal
    reference).  When one of them is 0 or larger than the length of its
    array, the record panics with an index out of range and the maps are
    left as they were. *)
Theorem face_index_resolution options st h parts vtype faces :
  faceTokens parts = Ok (vtype, faces) ->
  let key := meshID vtype (currentMaterial st) in
  let uv := bool_decide (vtype = PositionUV \/ vtype = PositionUVNormal) in
  let pos f := elementAt zero3 (positions st) (slot f 0) in
  let tex f := elementAt zero2 (uvs st) (slot f 1) in
  (Forall (fun f => Forall inRange (tokenReferences st vtype f)) faces ->
   exists f1 f2 f3 flat h',
     faces = [f1; f2; f3] /\
     objRecord fs options ("f" :: parts) st h = (Ok (countFace st), h') /\
     let nrm f :=
       if bool_decide (vtype = PositionUVNormal) then
         elementAt zero3 (normals st) (slot f 2)
       else if bool_decide (vtype = PositionNormal) then
         elementAt zero3 (normals st) (slot f 1)
       else flat in
     let vertex f :=
       floats3 (pos f) ++ (if uv then floats2 (tex f) else []) ++
       (if NeedNormals options then floats3 (nrm f) else []) in
     bucketVertices (meshes h') key =
     bucketVertices (meshes h) key ++ vertex f1 ++ vertex f2 ++ vertex f3) /\
  (Exists (fun f => Exists outOfRange (tokenReferences st vtype f)) faces ->
   objRecord fs options ("f" :: parts) st h = (Panic IndexOutOfRange, h)).
Proof.
  intros Ht key uv pos tex. split.
  - intros Hall.
    assert (Hall' : Forall (fun f => Forall inRange (references st vtype f)) faces).
    { eapply Forall_impl; [exact Hall|]. intros f Hf.
      by rewrite <- tokenReferences_references. }
    destruct (faceVertices_in_range options st parts vtype faces Ht Hall')
      as (f1 & f2 & f3 & -> & Hv).
    exists f1, f2, f3, (flatNormal (pos f1) (pos f2) (pos f3)). eexists.
    split; [done|]. rewrite objRecord_face, Hv. split; [reflexivity|].
    cbn [meshes]. subst key. rewrite writeBucket_vertices. f_equal.
    unfold faceData, vertexData. rewrite !slice3_floats3, uvIdxOf_carried.
    fold uv. subst pos tex. cbv beta.
    destruct (faceTokens_Ok _ _ _ Ht) as (_ & _ & _ & _ & Hc & _).
    rewrite !elem_of_cons in Hc.
    destruct Hc as [->|[->|[->|[->|Hc]]]]; [| | | |by apply elem_of_nil in Hc];
      subst uv; cbn; rewrite ?slice2_floats2; reflexivity.
  - intros Hex. apply Exists_exists in Hex as (f & Hf & Hex).
    apply Exists_exists in Hex as ([i n] & Hr & Hout).
    rewrite objRecord_face.
    rewrite (faceVertices_unresolved options st parts vtype faces f Ht Hf);
      [reflexivity|].
    pose proof (faceTokens_slot_range parts vtype faces f) as Hrange.
    rewrite tokenReferences_references in Hr.
    unfold references in Hr. rewrite !elem_of_app in Hr.
    unfold outOfRange in Hout. simpl in Hout.
    destruct Hr as [Hr|[Hr|Hr]].
    + apply list_elem_of_singleton in Hr. injection Hr as -> ->.
      left. apply resolve_out_of_range; [by apply Hrange | done].
    + destruct (Z.eqb_spec (uvIdxOf vtype) (-1)) as [E|E]; cbn [negb] in Hr;
        [by apply elem_of_nil in Hr|].
      apply list_elem_of_singleton in Hr. injection Hr as -> ->.
      right; left. split; [done|].
      apply resolve_out_of_range; [by apply Hrange | done].
    + destruct (Z.eqb_spec (nIdxOf vtype) (-1)) as [E|E]; cbn [negb] in Hr;
        [by apply elem_of_nil in Hr|].
      apply list_elem_of_singleton in Hr. injection Hr as -> ->.
      right; right. split; [done|].
      apply resolve_out_of_range; [by apply Hrange | done].
Qed.

(** C10: in a record whose encoding carries normal references - slot 2 of
    [v/vt/vn], slot 1 of [v//vn] - a normal reference outside the normal
    array makes the record panic whatever the options are, so also when
    [NeedNormals] is false and no normal would have been appended. *)
Theorem normal_references_always_resolved options st h parts vtype faces f i :
  faceTokens parts = Ok (vtype, faces) ->
  f ∈ faces ->
  (vtype = PositionUVNormal /\ i = slot f 2) \/
  (vtype = PositionNormal /\ i = slot f 1) ->
  Z.of_nat (List.length (normals st)) <= maxInt ->
  ~ (1 <= i <= Z.of_nat (List.length (normals st))) ->
  objRecord fs options ("f" :: parts) st h = (Panic IndexOutOfRange, h).
Proof.
  intros Ht Hf Hv Hlen Hout.
  rewrite objRecord_face.
  rewrite (faceVertices_unresolved options st parts vtype faces f Ht Hf);
    [reflexivity|].
  right; right.
  assert (Hn : nIdxOf vtype <> -1 /\ i = slot f (nIdxOf vtype)).
  { by destruct Hv as [[-> ->] | [-> ->]]. }
  destruct Hn as [Hn ->]. split; [done|].
  apply resolve_not_in_range; [done | | done].
  by apply (faceTokens_slot_range parts vtype faces).
Qed.

(** C7, as the code has it: the floats appended to the bucket of the record
    are those of v1, v2, v3 in that order, each vertex being its position,
    then its texture coordinates when the encoding carries a uv reference,
    then - when and only when [NeedNormals] is set - its normal: the
    referenced one when the encoding carries normal references, the flat
    normal of the triangle otherwise.  With [NeedNormals] unset no normal is
    appended, whatever the encoding. *)
Theorem face_vertex_layout options st h parts vtype f1 f2 f3 :
  faceTokens parts = Ok (vtype, [f1; f2; f3]) ->
  Forall (fun f => Forall inRange (references st vtype f)) [f1; f2; f3] ->
  let uv := bool_decide (vtype = PositionUV \/ vtype = PositionUVNormal) in
  let pos f := elementAt zero3 (positions st) (slot f 0) in
  let tex f := elementAt zero2 (uvs st) (slot f 1) in
  let nrm f :=
    if bool_decide (vtype = PositionUVNormal) then
      elementAt zero3 (normals st) (slot f 2)
    else if bool_decide (vtype = PositionNormal) then
      elementAt zero3 (normals st) (slot f 1)
    else flatNormal (pos f1) (pos f2) (pos f3) in
  let vertex f :=
    slice3 (pos f) ++ (if uv then slice2 (tex f) else []) ++
    (if NeedNormals options then slice3 (nrm f) else []) in
  let key := meshID vtype (currentMaterial st) in
  exists h',
    objRecord fs options ("f" :: parts) st h = (Ok (countFace st), h') /\
    bucketVertices (meshes h') key =
      bucketVertices (meshes h) key ++ vertex f1 ++ vertex f2 ++ vertex f3 /\
    (forall k, k <> key -> meshes h' !! k = meshes h !! k) /\
    materials h' = materials h.
Proof.
  intros Ht Hall uv pos tex nrm vertex key.
  destruct (faceVertices_in_range options st parts vtype _ Ht Hall)
    as (g1 & g2 & g3 & [= <- <- <-] & Hv).
  eexists. rewrite objRecord_face, Hv. split; [reflexivity|].
  cbn [meshes materials]. split; [|split; [|done]].
  - rewrite writeBucket_vertices. f_equal.
    unfold faceData, vertexData. subst vertex uv pos tex nrm. cbv beta.
    rewrite uvIdxOf_carried.
    destruct (faceTokens_Ok _ _ _ Ht) as (_ & _ & _ & _ & Hc & _).
    rewrite !elem_of_cons in Hc.
    destruct Hc as [->|[->|[->|[->|Hc]]]]; [| | | |by apply elem_of_nil in Hc];
      reflexivity.
  - intros k Hk. by apply writeBucket_other.
Qed.

(** ** Grouping by encoding and material *)

Lemma faceVertices_arrays options st st' parts :
  positions st = positions st' -> normals st = normals st' -> uvs st = uvs st' ->
  faceVertices options st parts = faceVertices options st' parts.
Proof. intros Hp Hn Hu. unfold faceVertices. by rewrite Hp, Hn, Hu. Qed.

Lemma faceVertices_Ok_tokens options st parts vtype vs :
  faceVertices options st parts = Ok (vtype, vs) ->
  exists faces, faceTokens parts = Ok (vtype, faces).
Proof.
  unfold faceVertices.
  destruct (faceTokens parts) as [[v faces]| |]; try discriminate.
  rewrite bind_Ok.
  destruct (trianglesLoop _ _ _ _ _ _ _ _); try discriminate.
  intros [= <- _]. eauto.
Qed.

Lemma carried_of_resolved ps ns ts uvIdx nIdx f :
  (exists v, deref ps f 0 = Ok v) /\
  (uvIdx <> -1 -> exists t, deref ts f uvIdx = Ok t) /\
  (nIdx <> -1 -> exists n, deref ns f nIdx = Ok n) ->
  exists v t n, carried ps ns ts uvIdx nIdx f v t n.
Proof using ops.
  intros ([v Hv] & Hu & Hn).
  assert (Ht : exists t, uvIdx <> -1 -> deref ts f uvIdx = Ok t).
  { destruct (Z.eq_dec uvIdx (-1)) as [E|E]; [by exists zero2|].
    destruct (Hu E) as [t Ht]. by exists t. }
  assert (Hn' : exists n, nIdx <> -1 -> deref ns f nIdx = Ok n).
  { destruct (Z.eq_dec nIdx (-1)) as [E|E]; [by exists zero3|].
    destruct (Hn E) as [n Hn']. by exists n. }
  destruct Ht as [t Ht], Hn' as [n Hn'].
  by exists v, t, n.
Qed.

Lemma vertexData_nonempty uv nrm (v : Vec3 F) (t : Vec2 F) (n : Vec3 F) :
  vertexData uv nrm v t n <> [].
Proof. by destruct v as [[a b] c]. Qed.

(** An accepted record emits something. *)
Lemma faceVertices_nonempty options st parts vtype vs :
  faceVertices options st parts = Ok (vtype, vs) -> vs <> [].
Proof.
  intros Hv.
  destruct (faceVertices_Ok_tokens _ _ _ _ _ Hv) as [faces Ht].
  destruct (faceTokens_Ok _ _ _ Ht) as (p1 & p2 & p3 & -> & _ & _ & _ & _ & ->).
  rewrite (faceVertices_tokens _ _ _ _ _ _ _ Ht) in Hv.
  destruct (triangle _ _ _ _ _ _ _ _ _ _) as [vs'| |] eqn:Et; try discriminate.
  injection Hv as <-.
  pose proof (triangle_Ok_inv _ _ _ _ _ _ _ _ _ _ _ Et) as Hinv.
  destruct (carried_of_resolved _ _ _ _ _ _
              (Hinv (getFaceData (Trim p1 "/") vtype) ltac:(repeat constructor)))
    as (va & ta & na & Ha).
  destruct (carried_of_resolved _ _ _ _ _ _
              (Hinv (getFaceData (Trim p2 "/") vtype) ltac:(repeat constructor)))
    as (vb & tb & nb & Hb).
  destruct (carried_of_resolved _ _ _ _ _ _
              (Hinv (getFaceData (Trim p3 "/") vtype) ltac:(repeat constructor)))
    as (vc & tc & nc & Hc).
  rewrite (triangle_Ok options _ _ _ _ _ _ _ _ [] _ _ _ _ _ _ _ _ _ Ha Hb Hc) in Et.
  injection Et as <-. cbn [app].
  intros Hnil. apply app_eq_nil in Hnil as [Hnil _].
  by apply vertexData_nonempty in Hnil.
Qed.

(** In arrays short enough to be Go slices, a reference that resolves is
    in range. *)
Lemma resolve_Ok_in_range {A} (arr : list A) (i : Z) (x : A) :
  Z.of_nat (List.length arr) <= maxInt ->
  minInt <= i <= maxInt ->
  resolve arr i = Ok x ->
  1 <= i <= Z.of_nat (List.length arr).
Proof.
  intros Hlen Hi Hr.
  destruct (decide (1 <= i <= Z.of_nat (List.length arr))) as [|Hn]; [done|].
  rewrite (resolve_not_in_range arr i Hlen Hi Hn) in Hr. discriminate.
Qed.

(** So the accepted records are those with every carried reference in
    range. *)
Lemma faceVertices_Ok_in_range options st parts vtype vs :
  Z.of_nat (List.length (positions st)) <= maxInt ->
  Z.of_nat (List.length (uvs st)) <= maxInt ->
  Z.of_nat (List.length (normals st)) <= maxInt ->
  faceVertices options st parts = Ok (vtype, vs) ->
  exists faces, faceTokens parts = Ok (vtype, faces) /\
    Forall (fun f => Forall inRange (references st vtype f)) faces.
Proof.
  intros Hp Hu Hn Hv.
  destruct (faceVertices_Ok_tokens _ _ _ _ _ Hv) as [faces Ht].
  exists faces. split; [done|].
  pose proof (faceTokens_slot_range parts vtype faces) as Hrange.
  destruct (faceTokens_Ok _ _ _ Ht) as (p1 & p2 & p3 & -> & Hc & _ & _ & _ & ->).
  rewrite (faceVertices_tokens _ _ _ _ _ _ _ Ht) in Hv.
  destruct (triangle _ _ _ _ _ _ _ _ _ _) as [vs'| |] eqn:Et; try discriminate.
  pose proof (triangle_Ok_inv _ _ _ _ _ _ _ _ _ _ _ Et) as Hinv.
  apply Forall_forall. intros f Hf.
  destruct (Hinv f Hf) as ([v Hv0] & Hut & Hnt).
  assert (Hs : exists p, f = getFaceData p vtype).
  { rewrite !elem_of_cons in Hf.
    destruct Hf as [->|[->|[->|Hf']]]; eauto. by apply elem_of_nil in Hf'. }
  destruct Hs as [p Hfp].
  destruct (getFaceData_slots p vtype Hc) as (H0 & Hus & Hns & _).
  rewrite <- Hfp in H0, Hus, Hns.
  unfold references. repeat apply Forall_app_2.
  - constructor; [|constructor]. unfold inRange. cbn [fst snd].
    rewrite (deref_slot _ _ _ H0) in Hv0.
    by apply (resolve_Ok_in_range _ _ v Hp (Hrange f 0 Ht Hf)).
  - destruct (Z.eqb_spec (uvIdxOf vtype) (-1)) as [E|E]; cbn [negb];
      [constructor|].
    destruct (Hut E) as [t Ht']. rewrite (deref_slot _ _ _ (Hus E)) in Ht'.
    constructor; [|constructor]. unfold inRange. cbn [fst snd].
    by apply (resolve_Ok_in_range _ _ t Hu (Hrange f _ Ht Hf)).
  - destruct (Z.eqb_spec (nIdxOf vtype) (-1)) as [E|E]; cbn [negb];
      [constructor|].
    destruct (Hnt E) as [n Hn']. rewrite (deref_slot _ _ _ (Hns E)) in Hn'.
    constructor; [|constructor]. unfold inRange. cbn [fst snd].
    by apply (resolve_Ok_in_range _ _ n Hn (Hrange f _ Ht Hf)).
Qed.

Lemma objLine_face options l st h parts vtype vs :
  Fields l = "f" :: parts ->
  faceVertices options st parts = Ok (vtype, vs) ->
  objLine fs options l st h =
  (Ok (countFace (countLine st)),
   mkStore (writeBucket vtype (currentMaterial st) vs (meshes h)) (materials h)).
Proof.
  intros Hl Hv. unfold objLine. rewrite Hl, objRecord_face.
  by rewrite (faceVertices_arrays options (countLine st) st parts), Hv.
Qed.

Lemma objLine_usemtl options l st h m :
  Fields l = ["usemtl"; m] -> m <> "" ->
  objLine fs options l st h =
  (Ok (mkObjState (positions st) (normals st) (uvs st)
         (wrap64 (lineCounter st + 1)) (facesCounter st) m (_nsMap st)), h).
Proof.
  intros Hl Hm. unfold objLine. rewrite Hl. unfold objRecord.
  cbn [String.eqb Ascii.eqb Bool.eqb].
  apply String.eqb_neq in Hm. by rewrite Hm.
Qed.

(** The mesh map after one record: as it was, or with one bucket written. *)
Lemma objRecord_meshes options fields st h :
  meshes (objRecord fs options fields st h).2 = meshes h \/
  exists vtype vs,
    meshes (objRecord fs options fields st h).2 =
    writeBucket vtype (currentMaterial st) vs (meshes h).
Proof.
  unfold objRecord.
  destruct fields as [|key parts]; [by left|].
  repeat match goal with
         | |- context [if ?b then _ else _] =>
             match b with
             | String.eqb key _ => destruct b
             | (_ <? _)%nat => destruct b
             end
         end; try (by left).
  - destruct (faceVertices options st parts) as [[vtype vs]| |];
      [right; by exists vtype, vs | by left | by left].
  - destruct (mtllibLoop fs parts (materials h)). by left.
  - destruct (decide _); by left.
Qed.

(** Buckets are only ever extended in place. *)
Lemma objLine_buckets_grow options l st h key b :
  meshes h !! key = Some b ->
  exists b', meshes (objLine fs options l st h).2 !! key = Some b' /\
    Vertices b `prefix_of` Vertices b' /\
    Vtype b' = Vtype b /\ MaterialName b' = MaterialName b.
Proof.
  intros Hb. unfold objLine.
  destruct (objRecord_meshes options (Fields l) (countLine st) h)
    as [-> | (vtype & vs & ->)].
  - by exists b.
  - by apply writeBucket_grows.
Qed.

(** C8: two consecutive accepted face records of one encoding under one
    material extend the bucket of (encoding, material) in input order; with
    a [usemtl] to another material between them the second goes to the
    bucket of its own key, which is a different one; no record removes a
    bucket or changes what it already holds; and two keys are equal only
    for the same encoding and the same material. *)
Theorem buckets_by_encoding_and_material options st h l1 l2 parts1 parts2
    vtype v1 v2 :
  Fields l1 = "f" :: parts1 ->
  Fields l2 = "f" :: parts2 ->
  faceVertices options st parts1 = Ok (vtype, v1) ->
  faceVertices options st parts2 = Ok (vtype, v2) ->
  let key := meshID vtype (currentMaterial st) in
  (exists st2 h2,
     objLoop fs options [l1; l2] st h = (Ok st2, h2) /\
     is_Some (meshes h2 !! key) /\
     bucketVertices (meshes h2) key = bucketVertices (meshes h) key ++ v1 ++ v2 /\
     forall k, k <> key -> meshes h2 !! k = meshes h !! k) /\
  (forall lu m,
     Fields lu = ["usemtl"; m] -> m <> "" -> m <> currentMaterial st ->
     let key' := meshID vtype m in
     exists st3 h3,
       objLoop fs options [l1; lu; l2] st h = (Ok st3, h3) /\
       key' <> key /\
       is_Some (meshes h3 !! key) /\ is_Some (meshes h3 !! key') /\
       bucketVertices (meshes h3) key = bucketVertices (meshes h) key ++ v1 /\
       bucketVertices (meshes h3) key' = bucketVertices (meshes h) key' ++ v2 /\
       forall k, k <> key -> k <> key' -> meshes h3 !! k = meshes h !! k) /\
  (forall l st0 h0 k b,
     meshes h0 !! k = Some b ->
     exists b', meshes (objLine fs options l st0 h0).2 !! k = Some b' /\
       Vertices b `prefix_of` Vertices b' /\
       Vtype b' = Vtype b /\ MaterialName b' = MaterialName b) /\
  (forall e1 e2 m1 m2,
     e1 ∈ [PositionOnly; PositionUV; PositionUVNormal; PositionNormal] ->
     e2 ∈ [PositionOnly; PositionUV; PositionUVNormal; PositionNormal] ->
     meshID e1 m1 = meshID e2 m2 -> e1 = e2 /\ m1 = m2).
Proof.
  intros Hl1 Hl2 Hv1 Hv2 key.
  pose proof (faceVertices_nonempty _ _ _ _ _ Hv1) as Hne1.
  pose proof (faceVertices_nonempty _ _ _ _ _ Hv2) as Hne2.
  split; [|split; [|split; [|apply meshID_inj]]].
  - do 2 eexists. cbn [objLoop].
    rewrite (objLine_face options l1 st h parts1 vtype v1 Hl1 Hv1).
    rewrite (objLine_face options l2 _ _ parts2 vtype v2 Hl2)
      by (by rewrite <- Hv2; apply faceVertices_arrays).
    split; [reflexivity|]. cbn [meshes currentMaterial countFace countLine].
    fold key. split; [|split].
    + unfold key. rewrite writeBucket_key by done. eauto.
    + unfold key. by rewrite !writeBucket_vertices, <- app_assoc.
    + intros k Hk. unfold key in Hk. by rewrite !writeBucket_other.
  - intros lu m Hlu Hm Hcur key'.
    assert (Hkey : key' <> key).
    { destruct (faceVertices_Ok_tokens _ _ _ _ _ Hv1) as [faces Ht].
      destruct (faceTokens_Ok _ _ _ Ht) as (_ & _ & _ & _ & Hc & _).
      intros Heq. by destruct (meshID_inj _ _ _ _ Hc Hc Heq). }
    do 2 eexists. cbn [objLoop].
    rewrite (objLine_face options l1 st h parts1 vtype v1 Hl1 Hv1).
    rewrite (objLine_usemtl options lu _ _ m Hlu Hm).
    rewrite (objLine_face options l2 _ _ parts2 vtype v2 Hl2)
      by (by rewrite <- Hv2; apply faceVertices_arrays).
    split; [reflexivity|]. cbn [meshes currentMaterial countFace countLine].
    fold key key'. split; [done|]. split; [|split; [|split; [|split]]].
    + rewrite writeBucket_other by done.
      unfold key. rewrite writeBucket_key by done. eauto.
    + unfold key'. rewrite writeBucket_key by done. eauto.
    + unfold bucketVertices. rewrite writeBucket_other by done.
      apply writeBucket_vertices.
    + unfold key'. rewrite writeBucket_vertices. f_equal.
      unfold bucketVertices. by rewrite writeBucket_other.
    + intros k Hk Hk'. by rewrite !writeBucket_other.
  - intros l st0 h0 k b Hb. by apply objLine_buckets_grow.
Qed.

(** ** What a failed call leaves behind *)

Lemma assign_dom (m : option string) (upd : Material F -> Material F)
    (mats : gmap string (Material F)) :
  dom (assign m upd mats).2 = dom mats.
Proof. destruct m; [apply dom_alter_L | done]. Qed.

Lemma scalarCase_dom msg parts m upd (mats : gmap string (Material F)) :
  dom (scalarCase msg parts m upd mats).2 = dom mats.
Proof.
  unfold scalarCase. destruct (_ <? _)%nat; [done|].
  destruct (index parts 0); [|done..].
  destruct (ParseFloat _); [apply assign_dom | done].
Qed.

Lemma vectorCase_dom msg parts m upd (mats : gmap string (Material F)) :
  dom (vectorCase msg parts m upd mats).2 = dom mats.
Proof.
  unfold vectorCase. destruct (_ <? _)%nat; [done|].
  destruct (sliceToFloat32 parts) as [nums [err|]]; [done|].
  destruct (_ ≫= _); [apply assign_dom | done..].
Qed.

(** A line of a material library removes no material. *)
Lemma mtlLine_dom rawText m (mats : gmap string (Material F)) :
  dom mats ⊆ dom (mtlLine rawText m mats).2.
Proof.
  clear fs.
  unfold mtlLine. destruct (Fields rawText) as [|key parts]; [done|].
  repeat match goal with
         | |- context [if String.eqb key ?k then _ else _] =>
             destruct (String.eqb key k)
         end; cbn [snd];
    rewrite ?scalarCase_dom, ?vectorCase_dom; try done.
  - destruct (index parts 0); cbn [snd]; [|done..].
    rewrite dom_insert_L. set_solver.
  - destruct (_ <? _)%nat; [done|].
    destruct (_ ≫= _); cbn [snd]; [by rewrite assign_dom | done..].
Qed.

Lemma mtlLoop_dom lines m (mats : gmap string (Material F)) :
  dom mats ⊆ dom (mtlLoop lines m mats).2.
Proof.
  revert m mats. induction lines as [|l lines IH]; intros m mats; [done|].
  cbn [mtlLoop]. pose proof (mtlLine_dom l m mats) as Hl.
  destruct (mtlLine l m mats) as [[m'| |] mats']; cbn [snd] in *; [|done..].
  etrans; [exact Hl | apply IH].
Qed.

Lemma LoadMtl_dom filePath (mats : gmap string (Material F)) :
  dom mats ⊆ dom (LoadMtl fs filePath mats).2.
Proof. unfold LoadMtl. destruct (fs filePath); [apply mtlLoop_dom | done]. Qed.

Lemma mtllibLoop_dom parts (mats : gmap string (Material F)) :
  dom mats ⊆ dom (mtllibLoop fs parts mats).2.
Proof.
  revert mats. induction parts as [|p parts IH]; intros mats; [done|].
  cbn [mtllibLoop]. pose proof (LoadMtl_dom p mats) as Hl.
  destruct (LoadMtl fs p mats) as [[[]| |] mats']; cbn [snd] in *; [|done..].
  etrans; [exact Hl | apply IH].
Qed.

(** Apart from [mtllib], a record leaves the materials alone; a record that
    does not succeed leaves the meshes alone. *)
Lemma objRecord_store options fields st h :
  let r := objRecord fs options fields st h in
  dom (materials h) ⊆ dom (materials r.2) /\
  ((forall parts, fields <> "mtllib" :: parts) -> materials r.2 = materials h) /\
  ((forall st', r.1 <> Ok st') -> meshes r.2 = meshes h).
Proof.
  unfold objRecord.
  destruct fields as [|key parts]; [done|].
  repeat match goal with
         | |- context [if ?b then _ else _] =>
             match b with
             | String.eqb key ?k => destruct (String.eqb_spec key k); try subst key
             | (_ <? _)%nat => destruct b
             end
         end; try done.
  - destruct (faceVertices options st parts) as [[vtype vs]| |]; [|done..].
    cbn. split; [done|]. split; [done|].
    intros Hno. by destruct (Hno (countFace st)).
  - pose proof (mtllibLoop_dom parts (materials h)) as Hd.
    destruct (mtllibLoop fs parts (materials h)) as [r mats']. cbn in *.
    split; [done|]. split; [|done]. intros Hno. by destruct (Hno parts).
  - by destruct (decide _).
Qed.

Lemma objLoop_app options pre l post st h st' h' :
  objLoop fs options pre st h = (Ok st', h') ->
  objLoop fs options (pre ++ l :: post) st h =
  match objLine fs options l st' h' with
  | (Ok st'', h'') => objLoop fs options post st'' h''
  | failure => failure
  end.
Proof.
  revert st h. induction pre as [|l0 pre IH]; intros st h; cbn [objLoop app].
  - by intros [= <- <-].
  - destruct (objLine fs options l0 st h) as [[st0| |] h0]; try discriminate.
    apply IH.
Qed.

(** No record removes a bucket or a material. *)
Lemma objLine_keys options l st h :
  dom (meshes h) ⊆ dom (meshes (objLine fs options l st h).2) /\
  dom (materials h) ⊆ dom (materials (objLine fs options l st h).2).
Proof.
  split.
  - intros k Hk. apply elem_of_dom in Hk as [b Hb].
    destruct (objLine_buckets_grow options l st h k b Hb) as (b' & Hb' & _).
    apply elem_of_dom. eauto.
  - apply (objRecord_store options (Fields l) (countLine st) h).
Qed.

Lemma objLoop_keys options lines st h :
  dom (meshes h) ⊆ dom (meshes (objLoop fs options lines st h).2) /\
  dom (materials h) ⊆ dom (materials (objLoop fs options lines st h).2).
Proof.
  revert st h. induction lines as [|l lines IH]; intros st h; [done|].
  cbn [objLoop]. pose proof (objLine_keys options l st h) as [Hm Ht].
  destruct (objLine fs options l st h) as [[st'| |] h1]; cbn [snd] in *; [|done..].
  destruct (IH st' h1) as [Hm' Ht']. split; etrans; eauto.
Qed.

(** A line on which [LoadMtl] returns an error does so whatever the
    material being filled in is, and writes nothing. *)
Lemma mtlLine_Error l m (mats : gmap string (Material F)) e :
  (mtlLine l m mats).1 = Error e ->
  forall m2 (mats2 : gmap string (Material F)),
    mtlLine l m2 mats2 = (Error e, mats2).
Proof.
  clear fs. intros He m2 mats2. unfold mtlLine in *.
  destruct (Fields l) as [|key parts]; [discriminate|].
  repeat match goal with
         | |- context [String.eqb key ?k] => destruct (String.eqb key k)
         end;
    unfold scalarCase, vectorCase, assign in *;
    repeat match goal with
           | H : context [if ?b then _ else _] |- _ => destruct b
           | H : context [match index ?l ?k with _ => _ end] |- _ =>
               destruct (index l k)
           | H : context [match ParseFloat ?x with _ => _ end] |- _ =>
               destruct (ParseFloat x)
           | H : context [match sliceToFloat32 ?x with _ => _ end] |- _ =>
               destruct (sliceToFloat32 x) as [? []]
           | H : context [match Atoi ?x with _ => _ end] |- _ =>
               destruct (Atoi x)
           | H : context [match mbind ?f ?x with _ => _ end] |- _ =>
               destruct (mbind f x)
           end;
    cbn in *; try discriminate; try (destruct m; discriminate);
    try (injection He as <-; reflexivity).
Qed.

Lemma mtlLoop_fails lpre lbad lpost m (mats mats' : gmap string (Material F)) e :
  mtlLoop lpre m mats = (Ok tt, mats') ->
  (forall m2, mtlLine lbad m2 mats' = (Error e, mats')) ->
  mtlLoop (lpre ++ lbad :: lpost) m mats = (Error e, mats').
Proof.
  clear fs. intros Hpre Hbad. revert m mats Hpre.
  induction lpre as [|l0 lpre IH]; intros m mats; cbn [mtlLoop app].
  - intros [= <-]. by rewrite Hbad.
  - destruct (mtlLine l0 m mats) as [[m0| |] mats0]; try discriminate.
    apply IH.
Qed.

Lemma mtllibLoop_app libs lib libs' (mats0 mats : gmap string (Material F)) :
  mtllibLoop fs libs mats0 = (Ok tt, mats) ->
  mtllibLoop fs (libs ++ lib :: libs') mats0 =
  match LoadMtl fs lib mats with
  | (Ok _, mats') => mtllibLoop fs libs' mats'
  | failure => failure
  end.
Proof.
  revert mats0. induction libs as [|q libs IH]; intros mats0; cbn [app mtllibLoop].
  - by intros [= <-].
  - destruct (LoadMtl fs q mats0) as [[[]| |] mats1]; try discriminate. apply IH.
Qed.

Lemma objRecord_mtllib options parts st h :
  objRecord fs options ("mtllib" :: parts) st h =
  ((mtllibLoop fs parts (materials h)).1 ≫= (fun _ => mret st),
   mkStore (meshes h) (mtllibLoop fs parts (materials h)).2).
Proof.
  unfold objRecord. cbn [String.eqb Ascii.eqb Bool.eqb].
  by destruct (mtllibLoop fs parts (materials h)).
Qed.

(** C2, as the code has it: a call that returns an error rolls nothing
    back.  When the file cannot be opened the maps are untouched.  When a
    record other than [mtllib] fails, [LoadObj] returns its error and the
    caller's two maps are as the records before it left them.
    When a library of a [mtllib] record fails - it cannot be opened, or one
    of its lines is refused - [LoadMtl] and then [LoadObj] return that
    error, the mesh map is as the records before left it and the material
    map is as the libraries before and the lines before the refused one
    left it.  When every record is accepted and the scanner reports an
    error, [LoadObj] returns it and the maps hold what all the records
    wrote.  In every case the keys the maps had at the call are still
    there. *)
Theorem failure_keeps_earlier_writes options path h :
  (fs path = None -> LoadObj fs path h options = (Error (PathError path), h)) /\
  (forall f, fs path = Some f ->
     (forall pre l post st' h' e,
        flines f = pre ++ l :: post ->
        objLoop fs options pre initObjState h = (Ok st', h') ->
        (forall parts, Fields l <> "mtllib" :: parts) ->
        (objLine fs options l st' h').1 = Error e ->
        LoadObj fs path h options = (Error e, h')) /\
     (forall pre l post st' h' libs lib libs' mats,
        flines f = pre ++ l :: post ->
        objLoop fs options pre initObjState h = (Ok st', h') ->
        Fields l = "mtllib" :: libs ++ lib :: libs' ->
        mtllibLoop fs libs (materials h') = (Ok tt, mats) ->
        (fs lib = None ->
         LoadMtl fs lib mats = (Error (PathError lib), mats) /\
         LoadObj fs path h options =
         (Error (PathError lib), mkStore (meshes h') mats)) /\
        (forall g lpre lbad lpost m mats' e,
           fs lib = Some g ->
           flines g = lpre ++ lbad :: lpost ->
           mtlLoop lpre None mats = (Ok tt, mats') ->
           (mtlLine lbad m mats').1 = Error e ->
           LoadMtl fs lib mats = (Error e, mats') /\
           LoadObj fs path h options = (Error e, mkStore (meshes h') mats'))) /\
     (forall st' h',
        objLoop fs options (flines f) initObjState h = (Ok st', h') ->
        ferr f = true ->
        LoadObj fs path h options = (Error ScanError, h'))) /\
  dom (meshes h) ⊆ dom (meshes (LoadObj fs path h options).2) /\
  dom (materials h) ⊆ dom (materials (LoadObj fs path h options).2).
Proof.
  split; [|split].
  { intros Hf. unfold LoadObj. by rewrite Hf. }
  2:{ pose proof (objLoop_keys options) as Hk.
      unfold LoadObj. destruct (fs path) as [f|]; [|done].
      specialize (Hk (flines f) initObjState h).
      by destruct (objLoop fs options (flines f) initObjState h) as [[st'| |] h']. }
  intros f Hf. split; [|split].
  - intros pre l post st' h' e Hlines Hpre Hnot Hl.
    pose proof (objRecord_store options (Fields l) (countLine st') h') as (_ & Hmat & Hmesh).
    fold (objLine fs options l st' h') in Hmat, Hmesh.
    unfold LoadObj. rewrite Hf, Hlines, (objLoop_app _ _ _ _ _ _ _ _ Hpre).
    specialize (Hmat Hnot).
    assert (Hm : meshes (objLine fs options l st' h').2 = meshes h').
    { apply Hmesh. intros st''. rewrite Hl. discriminate. }
    destruct (objLine fs options l st' h') as [[st''| |] [ms mt]];
      cbn [fst snd meshes materials] in *; try discriminate.
    injection Hl as ->. subst ms mt. by destruct h'.
  - intros pre l post st' h' libs lib libs' mats Hlines Hpre Hl Hlibs.
    assert (Hrun : forall e mats',
              LoadMtl fs lib mats = (Error e, mats') ->
              LoadObj fs path h options = (Error e, mkStore (meshes h') mats')).
    { intros e mats' Hlib.
      unfold LoadObj. rewrite Hf, Hlines, (objLoop_app _ _ _ _ _ _ _ _ Hpre).
      unfold objLine. rewrite Hl, objRecord_mtllib.
      by rewrite (mtllibLoop_app _ lib libs' _ _ Hlibs), Hlib. }
    split.
    + intros Hnone.
      assert (Hlib : LoadMtl fs lib mats = (Error (PathError lib), mats)).
      { unfold LoadMtl. by rewrite Hnone. }
      split; [exact Hlib | by apply Hrun].
    + intros g lpre lbad lpost m mats' e Hg Hglines Hlpre Hbad.
      assert (Hlib : LoadMtl fs lib mats = (Error e, mats')).
      { unfold LoadMtl. rewrite Hg, Hglines.
        apply mtlLoop_fails; [exact Hlpre|].
        intros m2. by apply (mtlLine_Error lbad m mats'). }
      split; [exact Hlib | by apply Hrun].
  - intros st' h' Hloop Herr. unfold LoadObj. by rewrite Hf, Hloop, Herr.
Qed.

(** C5: a token whose last reference is followed by other bytes is not
    refused.  [fmt.Fscanf] stops at the first byte that is not part of the
    number and its error is not looked at, so ["1x"] is decoded as ["1"]
    and the record is accepted. *)
Theorem malformed_reference_accepted options (a b c : Vec3 F) :
  getFaceType "1x" = PositionOnly /\
  getFaceData "1x" PositionOnly = [1] /\
  getFaceData "1/2x" PositionUV = [1; 2] /\
  (forall st h, objRecord fs options ["f"; "1x"; "2"; "3"] st h =
                objRecord fs options ["f"; "1"; "2"; "3"] st h) /\
  objRecord fs (mkOptions false) ["f"; "1x"; "2"; "3"]
    (mkObjState [a; b; c] [] [] 3 0 "default" ∅) (mkStore ∅ ∅) =
  (Ok (mkObjState [a; b; c] [] [] 3 1 "default" ∅),
   mkStore {[ "mesh-vtype0-materialdefault" :=
                mkMesh (slice3 a ++ slice3 b ++ slice3 c) 0 "default" ]} ∅).
Proof.
  do 4 (split; [reflexivity|]).
  destruct a as [[a0 a1] a2], b as [[b0 b1] b2], c as [[c0 c1] c2].
  vm_compute. reflexivity.
Qed.

(** ** Flat normals *)

(** A record without normal references, decoded with [NeedNormals] set,
    gives its three vertices one and the same normal: the cross product of
    the edges v1->v2 and v1->v3, as computed, not normalised. *)
Lemma flat_normal_of_record options st parts vtype f1 f2 f3 :
  faceTokens parts = Ok (vtype, [f1; f2; f3]) ->
  vtype = PositionOnly \/ vtype = PositionUV ->
  NeedNormals options = true ->
  Forall (fun f => Forall inRange (references st vtype f)) [f1; f2; f3] ->
  let va := elementAt zero3 (positions st) (slot f1 0) in
  let vb := elementAt zero3 (positions st) (slot f2 0) in
  let vc := elementAt zero3 (positions st) (slot f3 0) in
  let n := cross (sub3 vb va) (sub3 vc va) in
  let tex f :=
    if bool_decide (vtype = PositionUV)
    then slice2 (elementAt zero2 (uvs st) (slot f 1)) else [] in
  faceVertices options st parts =
  Ok (vtype, (slice3 va ++ tex f1 ++ slice3 n) ++
             (slice3 vb ++ tex f2 ++ slice3 n) ++
             (slice3 vc ++ tex f3 ++ slice3 n)).
Proof.
  intros Ht Hv Hn Hall va vb vc n tex.
  destruct (faceVertices_in_range options st parts vtype _ Ht Hall)
    as (g1 & g2 & g3 & [= <- <- <-] & ->).
  do 2 f_equal. unfold faceData, vertexData, flatNormal. rewrite Hn.
  subst va vb vc n tex. cbv beta.
  by destruct Hv as [-> | ->].
Qed.

(** The same on the bucket of the record, the subtractions and products
    written out on the coordinates. *)
Lemma flat_normal_in_bucket options st h parts vtype f1 f2 f3
    (a0 a1 a2 b0 b1 b2 c0 c1 c2 : F) :
  faceTokens parts = Ok (vtype, [f1; f2; f3]) ->
  vtype = PositionOnly \/ vtype = PositionUV ->
  NeedNormals options = true ->
  Forall (fun f => Forall inRange (tokenReferences st vtype f)) [f1; f2; f3] ->
  elementAt zero3 (positions st) (slot f1 0) = (a0, a1, a2) ->
  elementAt zero3 (positions st) (slot f2 0) = (b0, b1, b2) ->
  elementAt zero3 (positions st) (slot f3 0) = (c0, c1, c2) ->
  let u0 := f32_sub b0 a0 in
  let u1 := f32_sub b1 a1 in
  let u2 := f32_sub b2 a2 in
  let v0 := f32_sub c0 a0 in
  let v1 := f32_sub c1 a1 in
  let v2 := f32_sub c2 a2 in
  let n := [f32_sub (f32_mul u1 v2) (f32_mul u2 v1);
            f32_sub (f32_mul u2 v0) (f32_mul u0 v2);
            f32_sub (f32_mul u0 v1) (f32_mul u1 v0)] in
  let tex f :=
    if bool_decide (vtype = PositionUV)
    then floats2 (elementAt zero2 (uvs st) (slot f 1)) else [] in
  let key := meshID vtype (currentMaterial st) in
  exists h',
    objRecord fs options ("f" :: parts) st h = (Ok (countFace st), h') /\
    bucketVertices (meshes h') key =
    bucketVertices (meshes h) key ++
    ([a0; a1; a2] ++ tex f1 ++ n) ++ ([b0; b1; b2] ++ tex f2 ++ n) ++
    ([c0; c1; c2] ++ tex f3 ++ n).
Proof.
  intros Ht Hv Hn Hall Ha Hb Hc u0 u1 u2 v0 v1 v2 n tex key.
  assert (Hall' : Forall (fun f => Forall inRange (references st vtype f)) [f1; f2; f3]).
  { eapply Forall_impl; [exact Hall|]. intros f Hf.
    by rewrite <- tokenReferences_references. }
  eexists. rewrite objRecord_face.
  rewrite (flat_normal_of_record options st parts vtype f1 f2 f3 Ht Hv Hn Hall').
  split; [reflexivity|].
  cbn [meshes]. subst key. rewrite writeBucket_vertices. f_equal.
  rewrite Ha, Hb, Hc. subst tex n u0 u1 u2 v0 v1 v2. cbv beta.
  rewrite !slice2_floats2. reflexivity.
Qed.

End Records.

(** * The decoder on binary32 *)

Module Examples.

Import Binary32 Scene.

(** C6: for a record that carries no normal reference, decoded with
    [NeedNormals] set, every one of the three vertices gets the same normal
    after its position and texture coordinates: with [u] the edge v1->v2
    and [v] the edge v1->v3, each coordinate a binary32 difference, the
    three binary32 numbers u1*v2 - u2*v1, u2*v0 - u0*v2 and u0*v1 - u1*v0,
    not normalised.  On the positions (0,0,0), (1,0,0), (0,1,0) and the
    record [f 1 2 3] that normal is (0,0,1); on (1,1,1), (2,3,5), (4,2,7) it
    is (8,6,-5). *)
Theorem flat_normal_synthesized :
  (forall (F : Type) (ops : Float32 F) (fs : string -> option File)
          (st : ObjState F) (h : Store F) parts vtype f1 f2 f3
          (a0 a1 a2 b0 b1 b2 c0 c1 c2 : F),
     faceTokens parts = Ok (vtype, [f1; f2; f3]) ->
     vtype = PositionOnly \/ vtype = PositionUV ->
     Forall (fun f => Forall inRange (tokenReferences st vtype f)) [f1; f2; f3] ->
     elementAt zero3 (positions st) (slot f1 0) = (a0, a1, a2) ->
     elementAt zero3 (positions st) (slot f2 0) = (b0, b1, b2) ->
     elementAt zero3 (positions st) (slot f3 0) = (c0, c1, c2) ->
     let u0 := f32_sub b0 a0 in
     let u1 := f32_sub b1 a1 in
     let u2 := f32_sub b2 a2 in
     let v0 := f32_sub c0 a0 in
     let v1 := f32_sub c1 a1 in
     let v2 := f32_sub c2 a2 in
     let n := [f32_sub (f32_mul u1 v2) (f32_mul u2 v1);
               f32_sub (f32_mul u2 v0) (f32_mul u0 v2);
               f32_sub (f32_mul u0 v1) (f32_mul u1 v0)] in
     let tex f :=
       if bool_decide (vtype = PositionUV)
       then floats2 (elementAt zero2 (uvs st) (slot f 1)) else [] in
     let key := meshID vtype (currentMaterial st) in
     exists h',
       objRecord fs (mkOptions true) ("f" :: parts) st h = (Ok (countFace st), h') /\
       bucketVertices (meshes h') key =
       bucketVertices (meshes h) key ++
       ([a0; a1; a2] ++ tex f1 ++ n) ++ ([b0; b1; b2] ++ tex f2 ++ n) ++
       ([c0; c1; c2] ++ tex f3 ++ n)) /\
  (exists h',
     LoadObj triFile "tri.obj" emptyStore (mkOptions true) = (Ok tt, h') /\
     bucketVertices (meshes h') "mesh-vtype0-materialdefault" =
     [zero; zero; zero; zero; zero; one;
      one; zero; zero;  zero; zero; one;
      zero; one; zero;  zero; zero; one]) /\
  (exists h',
     LoadObj slantFile "slant.obj" emptyStore (mkOptions true) = (Ok tt, h') /\
     bucketVertices (meshes h') "mesh-vtype0-materialdefault" =
     [one; one; one;     eight; six; minusFive;
      two; three; five;  eight; six; minusFive;
      four; two; seven;  eight; six; minusFive]).
Proof.
  split; [|split].
  - intros F ops fs st h parts vtype f1 f2 f3 a0 a1 a2 b0 b1 b2 c0 c1 c2
      Ht Hv Hall Ha Hb Hc.
    by apply flat_normal_in_bucket.
  - eexists. split; vm_compute; reflexivity.
  - eexists. split; vm_compute; reflexivity.
Qed.

Lemma flat_normal_synthesized_witness :
  exists h',
    objRecord noFiles (mkOptions true) ["f"; "1/1"; "2/1"; "3/1"]
      triangleState emptyStore = (Ok (countFace triangleState), h') /\
    bucketVertices (meshes h') "mesh-vtype1-materialdefault" =
    [zero; zero; zero;  zero; zero;  zero; zero; one;
     one; zero; zero;   zero; zero;  zero; zero; one;
     zero; one; zero;   zero; zero;  zero; zero; one].
Proof.
  destruct (proj1 flat_normal_synthesized spec_float float32 noFiles
              triangleState emptyStore ["1/1"; "2/1"; "3/1"] PositionUV
              [1; 1] [2; 1] [3; 1]
              zero zero zero one zero zero zero one zero)
    as (h' & Hr & Hb).
  - reflexivity.
  - right. reflexivity.
  - all_in_range.
  - reflexivity.
  - reflexivity.
  - reflexivity.
  - exists h'. split; [exact Hr|].
    etransitivity; [exact Hb|]. vm_compute. reflexivity.
Defined.

Lemma face_index_resolution_witness :
  (exists h',
     objRecord noFiles (mkOptions true) ["f"; "1/1/1"; "2/1/1"; "3/1/1"]
       triangleState emptyStore = (Ok (countFace triangleState), h') /\
     bucketVertices (meshes h') "mesh-vtype2-materialdefault" =
     (floats3 o ++ [zero; zero] ++ floats3 ez) ++
     (floats3 ex ++ [zero; zero] ++ floats3 ez) ++
     (floats3 ey ++ [zero; zero] ++ floats3 ez)) /\
  objRecord noFiles (mkOptions true) ["f"; "1/1/1"; "2/1/1"; "3/2/1"]
    triangleState emptyStore = (Panic IndexOutOfRange, emptyStore).
Proof.
  split.
  - destruct (proj1 (face_index_resolution noFiles (mkOptions true) triangleState
                       emptyStore ["1/1/1"; "2/1/1"; "3/1/1"] PositionUVNormal
                       [[1; 1; 1]; [2; 1; 1]; [3; 1; 1]] eq_refl))
      as (f1 & f2 & f3 & flat & h' & Hf & Hr & Hb).
    + all_in_range.
    + injection Hf as <- <- <-. exists h'. split; [exact Hr|]. exact Hb.
  - apply (face_index_resolution noFiles (mkOptions true) triangleState emptyStore
             ["1/1/1"; "2/1/1"; "3/2/1"] PositionUVNormal
             [[1; 1; 1]; [2; 1; 1]; [3; 2; 1]] eq_refl).
    do 2 constructor 2. constructor 1.
    constructor 2. constructor 1. right.
    unfold slot. simpl. lia.
Defined.

Lemma normal_references_always_resolved_witness :
  objRecord noFiles (mkOptions false) ["f"; "1//1"; "2//1"; "3//2"]
    triangleState emptyStore = (Panic IndexOutOfRange, emptyStore).
Proof.
  apply (normal_references_always_resolved noFiles (mkOptions false)
           triangleState emptyStore ["1//1"; "2//1"; "3//2"] PositionNormal
           [[1; 1]; [2; 1]; [3; 2]] [3; 2] 2 eq_refl).
  - repeat constructor.
  - right. split; reflexivity.
  - vm_compute. discriminate.
  - vm_compute. intros [_ Hle]. apply Hle. reflexivity.
Defined.

(** C7 does not hold as stated: with [NeedNormals] unset, a record whose
    tokens refer to the normal (0,0,1) emits its three positions and
    nothing else. *)
Lemma referenced_normals_not_emitted :
  faceVertices (mkOptions false) triangleState ["1//1"; "2//1"; "3//1"] =
  Ok (PositionNormal, slice3 o ++ slice3 ex ++ slice3 ey) /\
  resolve (normals triangleState) 1 = Ok ez.
Proof. split; vm_compute; reflexivity. Qed.

Lemma face_vertex_layout_witness :
  exists h',
    objRecord noFiles (mkOptions true) ["f"; "1//1"; "2//1"; "3//1"]
      triangleState emptyStore = (Ok (countFace triangleState), h') /\
    bucketVertices (meshes h') "mesh-vtype3-materialdefault" =
    (slice3 o ++ slice3 ez) ++ (slice3 ex ++ slice3 ez) ++ (slice3 ey ++ slice3 ez).
Proof.
  destruct (face_vertex_layout noFiles (mkOptions true) triangleState emptyStore
              ["1//1"; "2//1"; "3//1"] PositionNormal [1; 1] [2; 1] [3; 1] eq_refl)
    as (h' & Hr & Hb & _).
  - all_in_range.
  - exists h'. split; [exact Hr|]. exact Hb.
Defined.

Lemma buckets_by_encoding_and_material_witness :
  exists st3 h3,
    objLoop noFiles (mkOptions false) ["f 1 2 3"; "usemtl red"; "f 3 2 1"]
      triangleState emptyStore = (Ok st3, h3) /\
    bucketVertices (meshes h3) "mesh-vtype0-materialdefault" =
      slice3 o ++ slice3 ex ++ slice3 ey /\
    bucketVertices (meshes h3) "mesh-vtype0-materialred" =
      slice3 ey ++ slice3 ex ++ slice3 o.
Proof.
  destruct (buckets_by_encoding_and_material noFiles (mkOptions false)
              triangleState emptyStore "f 1 2 3" "f 3 2 1"
              ["1"; "2"; "3"] ["3"; "2"; "1"] PositionOnly
              (slice3 o ++ slice3 ex ++ slice3 ey)
              (slice3 ey ++ slice3 ex ++ slice3 o)
              eq_refl eq_refl eq_refl eq_refl) as (_ & Hu & _).
  destruct (Hu "usemtl red" "red" eq_refl) as (st3 & h3 & Hr & _ & _ & _ & H1 & H2 & _).
  - discriminate.
  - discriminate.
  - exists st3, h3. split; [exact Hr|]. split; [exact H1 | exact H2].
Defined.

(** C2 does not hold as stated: the second face record of [scene.obj] fails
    and the caller's maps keep the bucket of the first and the material of
    the library; the material library of [broken.obj] fails on its second
    line and the caller's material map keeps the record of the first. *)
Lemma partial_result_not_discarded :
  (let r := LoadObj files "scene.obj" emptyStore (mkOptions false) in
   r.1 = Error (InvalidFormat "Faces cannot have length less than 3" ["1"; "2"]) /\
   meshes r.2 !! "mesh-vtype0-materialdefault" =
     Some (mkMesh (slice3 o ++ slice3 ex ++ slice3 ey) PositionOnly "default") /\
   Name <$> materials r.2 !! "wood" = Some "wood") /\
  (let r := LoadObj files "broken.obj" emptyStore (mkOptions false) in
   r.1 = Error (InvalidFormat "'Kd' must have 3 element" ["0.5"; "0.3"]) /\
   Name <$> materials r.2 !! "wood" = Some "wood").
Proof. repeat split; vm_compute; reflexivity. Qed.

Lemma failure_keeps_earlier_writes_witness :
  (exists h',
     LoadObj files "scene.obj" emptyStore (mkOptions false) =
     (Error (InvalidFormat "Faces cannot have length less than 3" ["1"; "2"]), h') /\
     meshes h' !! "mesh-vtype0-materialdefault" =
     Some (mkMesh [zero; zero; zero; one; zero; zero; zero; one; zero]
             PositionOnly "default")) /\
  LoadObj files "broken.obj" emptyStore (mkOptions false) =
  (Error (InvalidFormat "'Kd' must have 3 element" ["0.5"; "0.3"]),
   mkStore ∅ {[ "wood" := mkMaterial "wood" zero zero zero 0
                            (zero, zero, zero) (zero, zero, zero)
                            (zero, zero, zero) (zero, zero, zero)
                            (zero, zero, zero) ]}) /\
  LoadObj cutFile "cut.obj" emptyStore (mkOptions false) =
  (Error ScanError,
   mkStore {[ "mesh-vtype0-materialdefault" :=
                mkMesh [zero; zero; zero; one; zero; zero; zero; one; zero]
                  PositionOnly "default" ]} ∅).
Proof.
  split; [|split].
  - destruct (proj1 (proj2 (failure_keeps_earlier_writes files (mkOptions false)
                               "scene.obj" emptyStore)) _ eq_refl)
      as (Hrecord & _).
    eexists. split.
    + eapply (Hrecord
                ["mtllib wood.mtl"; "v 0 0 0"; "v 1 0 0"; "v 0 1 0"; "f 1 2 3"]
                "f 1 2" [] _ _ _ eq_refl).
      * vm_compute. reflexivity.
      * intros parts. vm_compute. discriminate.
      * vm_compute. reflexivity.
    + vm_compute. reflexivity.
  - destruct (proj1 (proj2 (failure_keeps_earlier_writes files (mkOptions false)
                               "broken.obj" emptyStore)) _ eq_refl)
      as (_ & Hlib & _).
    destruct (Hlib [] "mtllib broken.mtl" [] initObjState emptyStore
                [] "broken.mtl" [] ∅ eq_refl eq_refl eq_refl eq_refl)
      as [_ Hline].
    destruct (Hline _ ["newmtl wood"] "Kd 0.5 0.3" [] (Some "wood")
                (<["wood" := newMaterial "wood"]> ∅)
                (InvalidFormat "'Kd' must have 3 element" ["0.5"; "0.3"])
                eq_refl eq_refl)
      as [_ Hr].
    + vm_compute. reflexivity.
    + vm_compute. reflexivity.
    + eapply eq_trans; [exact Hr|]. vm_compute. reflexivity.
  - destruct (proj1 (proj2 (failure_keeps_earlier_writes cutFile (mkOptions false)
                               "cut.obj" emptyStore)) _ eq_refl)
      as (_ & _ & Hscan).
    eapply eq_trans; [eapply Hscan; [vm_compute; reflexivity | reflexivity]|].
    vm_compute. reflexivity.
Defined.

(** Records with an underscore in a reference or with spaces beyond ASCII
    between their fields: [1_0] is the reference 1, [1_] the reference 1,
    and a [v] line whose fields are separated by no-break spaces (U+00A0) is
    a [v] record of three fields. *)
Example records_of_unusual_bytes :
  objLine noFiles (mkOptions false) "f 1_0 2 3" triangleState emptyStore =
  objLine noFiles (mkOptions false) "f 1 2 3" triangleState emptyStore /\
  objLine noFiles (mkOptions false) "f 1//1_ 2//1 3//1" triangleState emptyStore =
  objLine noFiles (mkOptions false) "f 1//1 2//1 3//1" triangleState emptyStore /\
  (objLine noFiles (mkOptions false) "f 1 2 3" triangleState emptyStore).1 =
  Ok (countFace (countLine triangleState)) /\
  (st ← (objLine noFiles (mkOptions false)
           ("v" +:+ String "194" (String "160" "1") +:+
            String "194" (String "160" "0") +:+ String "194" (String "160" "1"))
           triangleState emptyStore).1;
   mret (positions st)) =
  Ok [o; ex; ey; (one, zero, one)].
Proof. repeat split; vm_compute; reflexivity. Qed.

(** The whole of a small scene, from its text. *)
Example LoadObj_scene :
  LoadObj triFile "tri.obj" emptyStore (mkOptions true) =
  (Ok tt,
   mkStore {[ "mesh-vtype0-materialdefault" :=
                mkMesh ((slice3 o ++ slice3 ez) ++ (slice3 ex ++ slice3 ez) ++
                        (slice3 ey ++ slice3 ez)) PositionOnly "default" ]} ∅).
Proof. vm_compute. reflexivity. Qed.

End Examples.

(** * More of the decoder *)

Section Coverage.

Context {F : Type} {ops : Float32 F}.
Variable fs : string -> option File.

Implicit Types (st : ObjState F) (h : Store F) (options : Options).

(** ** The field parsers *)

Lemma sliceToFloat32From_parsed (parts : list string) (acc vals : list F) :
  Forall2 (fun s v => ParseFloat s = Some v) parts vals ->
  sliceToFloat32From parts acc = (acc ++ vals, None).
Proof.
  intros Hall. revert acc.
  induction Hall as [|s v parts vals Hs _ IH]; intros acc; simpl.
  - by rewrite app_nil_r.
  - rewrite Hs, IH. by rewrite <- app_assoc.
Qed.

Lemma sliceToFloat32From_inv (parts : list string) (acc res : list F) :
  sliceToFloat32From parts acc = (res, None) ->
  exists vals, res = acc ++ vals /\
    Forall2 (fun s v => ParseFloat s = Some v) parts vals.
Proof.
  revert acc. induction parts as [|s parts IH]; intros acc; simpl.
  - intros [= <-]. exists []. by rewrite app_nil_r.
  - destruct (ParseFloat s) as [v|] eqn:Hs; [|discriminate].
    intros Hr. apply IH in Hr as (vals & -> & Hall).
    exists (v :: vals). rewrite <- app_assoc. split; [done|]. by constructor.
Qed.

(** X1: [sliceToFloat32] returns no error exactly when every field parses,
    and then the values of the fields in order; at the first field that
    does not parse it returns the values before it with the error of that
    field, and looks at no field after it. *)
Theorem sliceToFloat32_spec (parts : list string) (vals : list F) :
  (sliceToFloat32 parts = (vals, None) <->
   Forall2 (fun s v => ParseFloat s = Some v) parts vals) /\
  (forall pre s post,
     parts = pre ++ s :: post ->
     Forall2 (fun s v => ParseFloat s = Some v) pre vals ->
     ParseFloat s = None ->
     sliceToFloat32 parts = (vals, Some (NumError "ParseFloat" s))).
Proof.
  split.
  - split.
    + intros Hr. apply sliceToFloat32From_inv in Hr as (vals' & -> & Hall). done.
    + intros Hall. apply (sliceToFloat32From_parsed parts [] vals Hall).
  - intros pre s post -> Hall Hs. unfold sliceToFloat32.
    assert (Hgen : forall acc, sliceToFloat32From (pre ++ s :: post) acc =
                               (acc ++ vals, Some (NumError "ParseFloat" s))).
    { induction Hall as [|s0 v pre vals Hs0 _ IH]; intros acc; simpl.
      - by rewrite Hs, app_nil_r.
      - rewrite Hs0, IH. by rewrite <- app_assoc. }
    apply (Hgen []).
Qed.

Lemma sliceToIntFrom_parsed (parts : list string) (acc vals : list Z) :
  Forall2 (fun s v => ParseInt s = Some v) parts vals ->
  sliceToIntFrom parts acc = (acc ++ vals, None).
Proof.
  intros Hall. revert acc.
  induction Hall as [|s v parts vals Hs _ IH]; intros acc; simpl.
  - by rewrite app_nil_r.
  - rewrite Hs, IH. by rewrite <- app_assoc.
Qed.

Lemma sliceToIntFrom_inv (parts : list string) (acc res : list Z) :
  sliceToIntFrom parts acc = (res, None) ->
  exists vals, res = acc ++ vals /\
    Forall2 (fun s v => ParseInt s = Some v) parts vals.
Proof.
  revert acc. induction parts as [|s parts IH]; intros acc; simpl.
  - intros [= <-]. exists []. by rewrite app_nil_r.
  - destruct (ParseInt s) as [v|] eqn:Hs; [|discriminate].
    intros Hr. apply IH in Hr as (vals & -> & Hall).
    exists (v :: vals). rewrite <- app_assoc. split; [done|]. by constructor.
Qed.

(** X2: [sliceToInt] returns no error exactly when every field is a decimal
    integer that fits an [int], and then those integers in order, each in
    the range of [int]; at the first field that is not, it returns the
    integers before it with the error of that field. *)
Theorem sliceToInt_spec (parts : list string) (vals : list Z) :
  (sliceToInt parts = (vals, None) <->
   Forall2 (fun s v => ParseInt s = Some v) parts vals) /\
  (sliceToInt parts = (vals, None) ->
   Forall (fun v => minInt <= v <= maxInt) vals) /\
  (forall pre s post,
     parts = pre ++ s :: post ->
     Forall2 (fun s v => ParseInt s = Some v) pre vals ->
     ParseInt s = None ->
     sliceToInt parts = (vals, Some (NumError "Atoi" s))).
Proof.
  split; [|split].
  - split.
    + intros Hr. apply sliceToIntFrom_inv in Hr as (vals' & -> & Hall). done.
    + intros Hall. apply (sliceToIntFrom_parsed parts [] vals Hall).
  - intros Hr. apply sliceToIntFrom_inv in Hr as (vals' & -> & Hall).
    cbn [app]. clear -Hall.
    induction Hall as [|s v parts vals Hs _ IH]; constructor; [|done].
    by apply ParseInt_range in Hs.
  - intros pre s post -> Hall Hs. unfold sliceToInt.
    assert (Hgen : forall acc, sliceToIntFrom (pre ++ s :: post) acc =
                               (acc ++ vals, Some (NumError "Atoi" s))).
    { induction Hall as [|s0 v pre vals Hs0 _ IH]; intros acc; simpl.
      - by rewrite Hs, app_nil_r.
      - rewrite Hs0, IH. by rewrite <- app_assoc. }
    apply (Hgen []).
Qed.

(** ** Shapes of face tokens *)

Lemma append_cons (c : ascii) (s t : string) : String c s +:+ t = String c (s +:+ t).
Proof. reflexivity. Qed.

Lemma append_nil (t : string) : "" +:+ t = t.
Proof. reflexivity. Qed.

Lemma append_slash (t : string) : "/" +:+ t = String "/" t.
Proof. reflexivity. Qed.

Lemma append_empty (t : string) : t +:+ "" = t.
Proof. induction t as [|c t IH]; [done|]. by rewrite append_cons, IH. Qed.

Lemma Split_noSep (s : string) (sep : ascii) :
  countByte sep s = 0%nat -> Split s sep = [s].
Proof.
  induction s as [|c s IH]; simpl; [done|].
  destruct (Ascii.eqb c sep); [discriminate|].
  intros Hc. by rewrite IH.
Qed.

Lemma Split_app (s rest : string) (sep : ascii) :
  countByte sep s = 0%nat ->
  Split (s +:+ String sep rest) sep = s :: Split rest sep.
Proof.
  induction s as [|c s IH]; intros Hc.
  - rewrite append_nil. simpl. by rewrite Ascii.eqb_refl.
  - rewrite append_cons. simpl in *.
    destruct (Ascii.eqb c sep); [discriminate|].
    by rewrite IH.
Qed.

Lemma Split_length (s : string) (sep : ascii) :
  List.length (Split s sep) = S (countByte sep s).
Proof.
  induction s as [|c s IH]; simpl; [done|].
  destruct (Ascii.eqb c sep); simpl; [by rewrite IH|].
  pose proof (Split_nonempty s sep) as Hne.
  destruct (Split s sep); [done|]. simpl in *. lia.
Qed.

(** X3: the class of a token depends on its slashes alone, never on what
    the segments hold: no slash is PositionOnly, one is PositionUV, two are
    PositionNormal when nothing stands between them and PositionUVNormal
    otherwise, three or more are undefined. *)
Theorem getFaceType_by_segments (a b c rest : string) :
  countByte "/" a = 0%nat -> countByte "/" b = 0%nat -> countByte "/" c = 0%nat ->
  getFaceType a = PositionOnly /\
  getFaceType (a +:+ "/" +:+ b) = PositionUV /\
  getFaceType (a +:+ "/" +:+ b +:+ "/" +:+ c) =
    (if String.eqb b "" then PositionNormal else PositionUVNormal) /\
  getFaceType (a +:+ "/" +:+ b +:+ "/" +:+ c +:+ "/" +:+ rest) = UndefinedFace.
Proof.
  intros Ha Hb Hc. unfold getFaceType. rewrite !append_slash.
  split; [|split; [|split]].
  - by rewrite (Split_noSep a "/" Ha).
  - by rewrite (Split_app a b "/" Ha), (Split_noSep b "/" Hb).
  - rewrite (Split_app a _ "/" Ha), (Split_app b c "/" Hb), (Split_noSep c "/" Hc).
    simpl. by destruct (String.eqb b "").
  - rewrite (Split_app a _ "/" Ha), (Split_app b _ "/" Hb), (Split_app c rest "/" Hc).
    pose proof (Split_nonempty rest "/") as Hne.
    destruct (Split rest "/"); done.
Qed.

(** ** Decoding of well-formed tokens *)

Lemma isDigit_not_sign (c : ascii) :
  isDigit c = true -> c <> "+"%char /\ c <> "-"%char /\ c <> "/"%char.
Proof.
  intros Hd. repeat split; intros ->; vm_compute in Hd; discriminate.
Qed.

Lemma digitVal_nonneg (c : ascii) : isDigit c = true -> 0 <= digitVal c.
Proof.
  unfold isDigit, digitVal. intros Hd.
  apply andb_true_iff in Hd as [Hd _]. apply Nat.leb_le in Hd. lia.
Qed.

Lemma digitsValue_nonneg (s : string) (acc v : Z) :
  0 <= acc -> digitsValue s acc = Some v -> 0 <= v.
Proof.
  revert acc. induction s as [|c s IH]; intros acc Hacc; simpl.
  - by intros [= <-].
  - destruct (isDigit c) eqn:Hd; [|discriminate].
    apply IH. pose proof (digitVal_nonneg c Hd). lia.
Qed.

Lemma digitsValue_noSlash (s : string) (acc v : Z) :
  digitsValue s acc = Some v -> countByte "/" s = 0%nat.
Proof.
  revert acc. induction s as [|c s IH]; intros acc; simpl; [done|].
  destruct (isDigit c) eqn:Hd; [|discriminate].
  intros Hv. rewrite (IH _ Hv).
  destruct (isDigit_not_sign c Hd) as (_ & _ & Hs).
  by destruct (Ascii.eqb_spec c "/").
Qed.

Lemma acceptRun_numeral (s rest : string) (acc v : Z) :
  digitsValue s acc = Some v -> scanStops rest ->
  acceptRun isDigit (s +:+ rest) = (s, rest).
Proof.
  intros Hv Hstop. revert acc Hv.
  induction s as [|c s IH]; intros acc Hv.
  - rewrite append_nil. destruct rest as [|c r]; [done|].
    simpl in *. by rewrite Hstop.
  - rewrite append_cons. simpl in *.
    destruct (isDigit c) eqn:Hd; [|discriminate].
    by rewrite (IH _ Hv).
Qed.

(** A digit is no space: the scan of a number starts on it. *)
Lemma scanInt_unsigned (c : ascii) (s : string) :
  isDigit c = true ->
  scanInt (String c s) =
  let '(tok, rest) := acceptRun isDigit (String c s) in
  match tok with
  | EmptyString => None
  | _ => match ParseInt ("" +:+ tok) with
         | Some v => Some (v, rest)
         | None => None
         end
  end.
Proof.
  intros Hd.
  destruct c as [[] [] [] [] [] [] [] []]; try discriminate Hd; reflexivity.
Qed.

Lemma ParseInt_unsigned (c : ascii) (s : string) :
  c <> "+"%char -> c <> "-"%char ->
  ParseInt (String c s) =
  match digitsValue (String c s) 0 with
  | None => None
  | Some n => if (minInt <=? n) && (n <=? maxInt) then Some n else None
  end.
Proof.
  intros Hp Hm.
  destruct c as [[] [] [] [] [] [] [] []]; try reflexivity; congruence.
Qed.

(** A numeral is scanned whole and gives its value. *)
Lemma scanInt_numeral (a rest : string) (x : Z) :
  numeral a x -> scanStops rest -> scanInt (a +:+ rest) = Some (x, rest).
Proof.
  intros (Hne & Hv & Hmax) Hstop.
  destruct a as [|c a]; [done|].
  assert (Hd : isDigit c = true).
  { simpl in Hv. by destruct (isDigit c). }
  destruct (isDigit_not_sign c Hd) as (Hp & Hm & _).
  rewrite append_cons, (scanInt_unsigned c _ Hd), <- append_cons.
  rewrite (acceptRun_numeral _ rest 0 x Hv Hstop).
  rewrite append_nil, (ParseInt_unsigned c a Hp Hm), Hv.
  pose proof (digitsValue_nonneg _ 0 x ltac:(lia) Hv) as Hx.
  assert (Hr : (minInt <=? x) && (x <=? maxInt) = true).
  { apply andb_true_iff. split; [apply Z.leb_le; unfold minInt; lia | by apply Z.leb_le]. }
  by rewrite Hr.
Qed.

Lemma trimRight_noCut (t : string) (cut : ascii) :
  countByte cut t = 0%nat -> trimRight t cut = t.
Proof.
  induction t as [|c t IH]; simpl; [done|].
  destruct (Ascii.eqb c cut); [discriminate|].
  intros Hc. rewrite (IH Hc). by destruct t.
Qed.

Lemma trimRight_cons (c : ascii) (t : string) (cut : ascii) :
  t <> "" -> trimRight t cut = t -> trimRight (String c t) cut = String c t.
Proof. intros Hne Ht. simpl. rewrite Ht. by destruct t. Qed.

Lemma trimRight_app (s t : string) (cut : ascii) :
  t <> "" -> trimRight t cut = t -> trimRight (s +:+ t) cut = s +:+ t.
Proof.
  intros Hne Ht. induction s as [|c s IH]; [by rewrite append_nil|].
  rewrite append_cons. apply trimRight_cons; [|done].
  destruct s; [by rewrite append_nil | by rewrite append_cons].
Qed.

(** A token that starts with a numeral and ends with one has no slash to
    trim. *)
Lemma Trim_numerals (a t : string) (x : Z) :
  numeral a x -> t <> "" -> trimRight t "/" = t ->
  Trim (a +:+ t) "/" = a +:+ t.
Proof.
  intros (Hne & Hv & _) Ht Htr. unfold Trim.
  destruct a as [|c a]; [done|].
  assert (Hd : isDigit c = true).
  { simpl in Hv. by destruct (isDigit c). }
  destruct (isDigit_not_sign c Hd) as (_ & _ & Hs).
  rewrite append_cons. cbn [trimLeft].
  destruct (Ascii.eqb_spec c "/") as [|_]; [done|].
  rewrite <- append_cons. by apply trimRight_app.
Qed.

Lemma Trim_numeral (a : string) (x : Z) : numeral a x -> Trim a "/" = a.
Proof.
  intros Ha. pose proof Ha as (Hne & Hv & _).
  destruct a as [|c a]; [done|].
  assert (Hd : isDigit c = true).
  { simpl in Hv. by destruct (isDigit c). }
  destruct (isDigit_not_sign c Hd) as (_ & _ & Hs).
  unfold Trim. cbn [trimLeft].
  destruct (Ascii.eqb_spec c "/") as [|_]; [done|].
  apply trimRight_noCut. apply (digitsValue_noSlash _ _ _ Hv).
Qed.

Lemma trimRight_slash_numeral (b : string) (y : Z) :
  numeral b y -> trimRight (String "/" b) "/" = String "/" b.
Proof.
  intros (Hne & Hv & _). apply trimRight_cons; [done|].
  apply trimRight_noCut, (digitsValue_noSlash _ _ _ Hv).
Qed.

Lemma numeral_token_shapes (a b c : string) (x y z : Z) :
  numeral a x -> numeral b y -> numeral c z ->
  (Trim a "/" = a /\
   getFaceType a = PositionOnly /\
   getFaceData a PositionOnly = [x]) /\
  (Trim (a +:+ "/" +:+ b) "/" = a +:+ "/" +:+ b /\
   getFaceType (a +:+ "/" +:+ b) = PositionUV /\
   getFaceData (a +:+ "/" +:+ b) PositionUV = [x; y]) /\
  (Trim (a +:+ "/" +:+ b +:+ "/" +:+ c) "/" = a +:+ "/" +:+ b +:+ "/" +:+ c /\
   getFaceType (a +:+ "/" +:+ b +:+ "/" +:+ c) = PositionUVNormal /\
   getFaceData (a +:+ "/" +:+ b +:+ "/" +:+ c) PositionUVNormal = [x; y; z]) /\
  (Trim (a +:+ "//" +:+ c) "/" = a +:+ "//" +:+ c /\
   getFaceType (a +:+ "//" +:+ c) = PositionNormal /\
   getFaceData (a +:+ "//" +:+ c) PositionNormal = [x; z]).
Proof.
  intros Ha Hb Hc.
  pose proof Ha as (_ & Hva & _). pose proof Hb as (Hbne & Hvb & _).
  pose proof Hc as (_ & Hvc & _).
  pose proof (digitsValue_noSlash _ _ _ Hva) as Hsa.
  pose proof (digitsValue_noSlash _ _ _ Hvb) as Hsb.
  pose proof (digitsValue_noSlash _ _ _ Hvc) as Hsc.
  destruct (getFaceType_by_segments a b c "" Hsa Hsb Hsc) as (T0 & T1 & T2 & _).
  destruct (getFaceType_by_segments a "" c "" Hsa eq_refl Hsc) as (_ & _ & T3 & _).
  assert (Hb' : String.eqb b "" = false) by by apply String.eqb_neq.
  rewrite Hb' in T2.
  assert (Hend : forall t v, numeral t v -> scanInt t = Some (v, "")).
  { intros t v Ht. pose proof (scanInt_numeral t "" v Ht I) as Hs.
    by rewrite append_empty in Hs. }
  pose proof (trimRight_slash_numeral b y Hb) as Rb.
  pose proof (trimRight_slash_numeral c z Hc) as Rc.
  split; [|split; [|split]]; (split; [|split; [done|]]).
  - by apply (Trim_numeral a x).
  - unfold getFaceData, PositionOnly. cbn [Fscanf]. by rewrite (Hend a x Ha).
  - rewrite append_slash. by apply (Trim_numerals a _ x).
  - unfold getFaceData, PositionUV. rewrite append_slash. cbn [Fscanf].
    rewrite (scanInt_numeral a _ x Ha) by done.
    cbn [Ascii.eqb Bool.eqb]. by rewrite (Hend b y Hb).
  - rewrite !append_slash. apply (Trim_numerals a _ x Ha); [done|].
    rewrite <- (append_cons "/" b (String "/" c)).
    apply trimRight_cons; [by destruct b|].
    by apply trimRight_app.
  - unfold getFaceData, PositionUVNormal. rewrite !append_slash. cbn [Fscanf].
    rewrite (scanInt_numeral a _ x Ha) by done.
    cbn [Ascii.eqb Bool.eqb].
    rewrite (scanInt_numeral b _ y Hb) by done.
    cbn [Ascii.eqb Bool.eqb]. by rewrite (Hend c z Hc).
  - change (a +:+ "//" +:+ c) with (a +:+ String "/" (String "/" c)).
    apply (Trim_numerals a _ x Ha); [done|].
    by apply trimRight_cons.
  - unfold getFaceData, PositionNormal.
    change (a +:+ "//" +:+ c) with (a +:+ String "/" (String "/" c)).
    cbn [Fscanf].
    rewrite (scanInt_numeral a _ x Ha) by done.
    cbn [Ascii.eqb Bool.eqb]. by rewrite (Hend c z Hc).
Qed.

Lemma tokenOf_decode (vtype : Z) (t : string) (refs : list Z) :
  tokenOf vtype t refs ->
  Trim t "/" = t /\ getFaceType t = vtype /\ getFaceData t vtype = refs /\
  vtype ∈ [PositionOnly; PositionUV; PositionUVNormal; PositionNormal].
Proof.
  intros [a x Ha|a b x y Ha Hb|a b c x y z Ha Hb Hc|a c x z Ha Hc].
  - destruct (numeral_token_shapes a a a x x x Ha Ha Ha) as ((? & ? & ?) & _).
    repeat split; try done;
      repeat first [apply list_elem_of_here | apply list_elem_of_further].
  - destruct (numeral_token_shapes a b b x y y Ha Hb Hb) as (_ & (? & ? & ?) & _).
    repeat split; try done;
      repeat first [apply list_elem_of_here | apply list_elem_of_further].
  - destruct (numeral_token_shapes a b c x y z Ha Hb Hc) as (_ & _ & (? & ? & ?) & _).
    repeat split; try done;
      repeat first [apply list_elem_of_here | apply list_elem_of_further].
  - destruct (numeral_token_shapes a a c x x z Ha Ha Hc) as (_ & _ & _ & (? & ? & ?)).
    repeat split; try done;
      repeat first [apply list_elem_of_here | apply list_elem_of_further].
Qed.

(** X4: a token of the shape [a], [a/b], [a/b/c] or [a//c] whose segments
    are decimal numerals that fit an [int] is left as it is by the trimming
    of slashes, classified by its shape and decoded to the values of its
    numerals in the order position, uv, normal. *)
Theorem face_token_decode (vtype : Z) (t : string) (refs : list Z) :
  tokenOf vtype t refs ->
  Trim t "/" = t /\ getFaceType t = vtype /\ getFaceData t vtype = refs.
Proof.
  intros Ht. destruct (tokenOf_decode vtype t refs Ht) as (? & ? & ? & _). done.
Qed.

(** X5: three well-formed tokens of one encoding pass the checks of the
    face case and give that encoding and their references, token by
    token. *)
Theorem faceTokens_well_formed (vtype : Z) (t1 t2 t3 : string) (f1 f2 f3 : list Z) :
  tokenOf vtype t1 f1 -> tokenOf vtype t2 f2 -> tokenOf vtype t3 f3 ->
  faceTokens [t1; t2; t3] = Ok (vtype, [f1; f2; f3]).
Proof.
  intros H1 H2 H3.
  destruct (tokenOf_decode _ _ _ H1) as (R1 & T1 & D1 & Hv).
  destruct (tokenOf_decode _ _ _ H2) as (R2 & T2 & D2 & _).
  destruct (tokenOf_decode _ _ _ H3) as (R3 & T3 & D3 & _).
  rewrite (faceTokens_consistent t1 t2 t3 vtype).
  - by rewrite R1, R2, R3, D1, D2, D3.
  - unfold UndefinedFace. rewrite !elem_of_cons in Hv.
    destruct Hv as [->|[->|[->|[->|Hv]]]]; [done..|by apply elem_of_nil in Hv].
  - by rewrite R1.
  - by rewrite R2.
  - by rewrite R3.
Qed.

(** ** Refused face records *)



(** ** Accepted face records *)

Lemma faceVertices_cases options st parts vtype faces :
  faceTokens parts = Ok (vtype, faces) ->
  (exists vs, faceVertices options st parts = Ok (vtype, vs)) \/
  faceVertices options st parts = Panic IndexOutOfRange.
Proof.
  intros Ht.
  destruct (faceTokens_Ok _ _ _ Ht) as (p1 & p2 & p3 & -> & _ & _ & _ & _ & ->).
  rewrite (faceVertices_tokens _ _ _ _ _ _ _ Ht).
  destruct (triangle_cases options (positions st) (normals st) (uvs st)
              (uvIdxOf vtype) (nIdxOf vtype)
              (getFaceData (Trim p1 "/") vtype) (getFaceData (Trim p2 "/") vtype)
              (getFaceData (Trim p3 "/") vtype) []) as [[vs ->]| ->].
  - left. by exists vs.
  - by right.
Qed.

(** X7: a face record that passed the checks on its tokens has two
    outcomes.  With every reference of its encoding - slot 0 for the
    position, slot 1 for the texture coordinates of [v/vt] and [v/vt/vn],
    slot 2 of [v/vt/vn] and slot 1 of [v//vn] for the normal - between 1 and
    the length of its array it is accepted; with any other reference - zero,
    past the end, or negative, relative references not being supported - it
    panics with an index out of range and writes nothing. *)
Theorem face_record_accepted_iff options st h parts vtype faces :
  Z.of_nat (List.length (positions st)) <= maxInt ->
  Z.of_nat (List.length (uvs st)) <= maxInt ->
  Z.of_nat (List.length (normals st)) <= maxInt ->
  faceTokens parts = Ok (vtype, faces) ->
  let inside :=
    Forall (fun f => Forall inRange (tokenReferences st vtype f)) faces in
  (inside <-> exists st' h', objRecord fs options ("f" :: parts) st h = (Ok st', h')) /\
  (~ inside -> objRecord fs options ("f" :: parts) st h = (Panic IndexOutOfRange, h)).
Proof.
  intros Hp Hu Hn Ht inside.
  assert (Hrefs : inside <->
            Forall (fun f => Forall inRange (references st vtype f)) faces).
  { subst inside. rewrite !Forall_forall.
    split; intros Hall f Hf; specialize (Hall f Hf);
      by rewrite tokenReferences_references in *. }
  assert (Hok : (exists vs, faceVertices options st parts = Ok (vtype, vs)) -> inside).
  { intros [vs Hvs]. apply Hrefs.
    destruct (faceVertices_Ok_in_range options st parts vtype vs Hp Hu Hn Hvs)
      as (faces' & Ht' & Hall).
    rewrite Ht in Ht'. by injection Ht' as <-. }
  split; [split|].
  - intros Hin. apply Hrefs in Hin.
    destruct (faceVertices_in_range options st parts vtype faces Ht Hin)
      as (f1 & f2 & f3 & _ & Hv).
    rewrite objRecord_face, Hv. eauto.
  - intros (st' & h' & Hr). apply Hok.
    rewrite objRecord_face in Hr.
    destruct (faceVertices_cases options st parts vtype faces Ht) as [Hv|Hv]; [done|].
    rewrite Hv in Hr. discriminate.
  - intros Hout. rewrite objRecord_face.
    destruct (faceVertices_cases options st parts vtype faces Ht) as [Hv|Hv].
    + by destruct (Hout (Hok Hv)).
    + by rewrite Hv.
Qed.




(** ** The buckets a call leaves *)






(** ** The attribute arrays *)

Lemma objRecord_arrays options fields st h st' :
  (objRecord fs options fields st h).1 = Ok st' ->
  positions st `prefix_of` positions st' /\
  normals st `prefix_of` normals st' /\
  uvs st `prefix_of` uvs st'.
Proof.
  unfold objRecord.
  destruct fields as [|key parts]; [by intros [= <-]|].
  repeat match goal with
         | |- context [if ?b then _ else _] =>
             match b with
             | String.eqb key _ => destruct b
             | (_ <? _)%nat => destruct b
             end
         end; cbn [fst]; try (by intros [= <-]); try discriminate.
  - destruct (sliceTo parts 3) as [p3| |]; try discriminate. rewrite bind_Ok.
    destruct (sliceToFloat32 p3) as [vert [e|]]; try discriminate.
    destruct (index vert 0), (index vert 1), (index vert 2); try discriminate.
    intros [= <-]. cbn. repeat split; [by apply prefix_app_r|done..].
  - destruct (sliceTo parts 3) as [p3| |]; try discriminate. rewrite bind_Ok.
    destruct (sliceToFloat32 p3) as [vert [e|]]; try discriminate.
    destruct (index vert 0), (index vert 1), (index vert 2); try discriminate.
    intros [= <-]. cbn. repeat split; [done|by apply prefix_app_r|done].
  - destruct (sliceTo parts 2) as [p2| |]; try discriminate. rewrite bind_Ok.
    destruct (sliceToFloat32 p2) as [uv [e|]]; try discriminate.
    destruct (index uv 0), (index uv 1); try discriminate.
    intros [= <-]. cbn. repeat split; [done..|by apply prefix_app_r].
  - destruct (faceVertices options st parts) as [[vtype vs]| |]; try discriminate.
    by intros [= <-].
  - destruct (mtllibLoop fs parts (materials h)) as [[[]| |] mats]; try discriminate.
    by intros [= <-].
  - destruct (decide _); by intros [= <-].
Qed.

(** X10: the position, normal and uv arrays only grow at their end: after
    any number of lines decoded without failure, each array starts with
    what it held before them. *)
Theorem arrays_append_only options lines st h st' h' :
  objLoop fs options lines st h = (Ok st', h') ->
  positions st `prefix_of` positions st' /\
  normals st `prefix_of` normals st' /\
  uvs st `prefix_of` uvs st'.
Proof.
  revert st h. induction lines as [|l lines IH]; intros st h; cbn [objLoop].
  - by intros [= <- _].
  - destruct (objLine fs options l st h) as [[st1| |] h1] eqn:El; try discriminate.
    intros Hr. destruct (IH _ _ Hr) as (Hp & Hn & Hu).
    destruct (objRecord_arrays options (Fields l) (countLine st) h st1) as (Hp1 & Hn1 & Hu1).
    { unfold objLine in El. by rewrite El. }
    cbn in Hp1, Hn1, Hu1.
    repeat split; etrans; eauto.
Qed.

(** ** Normals and texture coordinates *)

(** X11: [vn] and [vt] records have the arity rules of [v]: a [vn] with
    more than three fields and a [vt] with more than two are format errors;
    with fewer fields than that the re-slicing panics; with exactly three,
    or two, fields that parse, the values are appended to the normal, or
    uv, array and nothing else changes. *)
Theorem vn_vt_record_arity options st h :
  (forall a b c d rest,
     objRecord fs options ("vn" :: a :: b :: c :: d :: rest) st h =
     (Error (errorInvalidFormat "Surface Normal can only have 3 elements"
               (a :: b :: c :: d :: rest)), h)) /\
  (forall parts, (List.length parts < 3)%nat ->
     objRecord fs options ("vn" :: parts) st h = (Panic SliceBoundsOutOfRange, h)) /\
  (forall a b c x y z,
     ParseFloat a = Some x -> ParseFloat b = Some y -> ParseFloat c = Some z ->
     objRecord fs options ["vn"; a; b; c] st h =
     (Ok (mkObjState (positions st) (normals st ++ [(x, y, z)]) (uvs st)
            (lineCounter st) (facesCounter st) (currentMaterial st) (_nsMap st)), h)) /\
  (forall a b c rest,
     objRecord fs options ("vt" :: a :: b :: c :: rest) st h =
     (Error (errorInvalidFormat "Texture coords only have 2 elements"
               (a :: b :: c :: rest)), h)) /\
  (forall parts, (List.length parts < 2)%nat ->
     objRecord fs options ("vt" :: parts) st h = (Panic SliceBoundsOutOfRange, h)) /\
  (forall a b x y,
     ParseFloat a = Some x -> ParseFloat b = Some y ->
     objRecord fs options ["vt"; a; b] st h =
     (Ok (mkObjState (positions st) (normals st) (uvs st ++ [(x, y)])
            (lineCounter st) (facesCounter st) (currentMaterial st) (_nsMap st)), h)).
Proof.
  repeat split.
  - intros [|a [|b [|c ?]]] Hl; simpl in Hl; try lia; reflexivity.
  - intros a b c x y z Ha Hb Hc. unfold objRecord. simpl.
    unfold sliceToFloat32. simpl. rewrite Ha. simpl. rewrite Hb. simpl.
    rewrite Hc. reflexivity.
  - intros [|a [|b ?]] Hl; simpl in Hl; try lia; reflexivity.
  - intros a b x y Ha Hb. unfold objRecord. simpl.
    unfold sliceToFloat32. simpl. rewrite Ha. simpl. rewrite Hb. reflexivity.
Qed.

(** ** The current material *)

Lemma objLine_usemtl_default options l st h p q rest :
  Fields l = "usemtl" :: p :: q :: rest ->
  objLine fs options l st h = (Ok (setMaterial (countLine st) "default"), h).
Proof. intros Hl. unfold objLine. by rewrite Hl. Qed.

(** X12: [usemtl] with one non-empty name selects that material; with no
    name, or with more than one, it selects ["default"] and does not fail,
    so that the faces after a [usemtl] of two names go to the buckets of
    ["default"]. *)
Theorem usemtl_selects_material options st h :
  (forall p, p <> "" ->
     objRecord fs options ["usemtl"; p] st h = (Ok (setMaterial st p), h)) /\
  objRecord fs options ["usemtl"] st h = (Ok (setMaterial st "default"), h) /\
  (forall p q rest,
     objRecord fs options ("usemtl" :: p :: q :: rest) st h =
     (Ok (setMaterial st "default"), h)) /\
  (forall lu lf p q rest parts vtype vs,
     Fields lu = "usemtl" :: p :: q :: rest ->
     Fields lf = "f" :: parts ->
     faceVertices options st parts = Ok (vtype, vs) ->
     exists st' h',
       objLoop fs options [lu; lf] st h = (Ok st', h') /\
       bucketVertices (meshes h') (meshID vtype "default") =
       bucketVertices (meshes h) (meshID vtype "default") ++ vs).
Proof.
  split; [|split; [|split]].
  - intros p Hp. unfold objRecord. cbn [String.eqb Ascii.eqb Bool.eqb].
    apply String.eqb_neq in Hp. by rewrite Hp.
  - reflexivity.
  - reflexivity.
  - intros lu lf p q rest parts vtype vs Hlu Hlf Hv.
    do 2 eexists. cbn [objLoop].
    rewrite (objLine_usemtl_default options lu st h p q rest Hlu).
    rewrite (objLine_face fs options lf _ _ parts vtype vs Hlf)
      by (by rewrite <- Hv; apply faceVertices_arrays).
    split; [reflexivity|]. cbn. apply writeBucket_vertices.
Qed.

(** ** Lines without effect *)

Lemma objRecord_inert options key parts st h :
  key ∉ objKeywords ->
  exists seen,
    objRecord fs options (key :: parts) st h =
    (Ok (mkObjState (positions st) (normals st) (uvs st) (lineCounter st)
           (facesCounter st) (currentMaterial st) seen), h).
Proof.
  unfold objKeywords. rewrite !not_elem_of_cons. intros (Hv & Hvn & Hvt & Hf & Hu & Hm & _).
  unfold objRecord.
  destruct (String.eqb_spec key "#") as [|_]; [exists (_nsMap st); by destruct st|].
  apply String.eqb_neq in Hv, Hvn, Hvt, Hf, Hu, Hm.
  rewrite Hv, Hvn, Hvt, Hf, Hu, Hm.
  destruct (decide _); [exists (_nsMap st); by destruct st|].
  by eexists.
Qed.

Lemma objLoop_inert options lines st h :
  Forall (inert objKeywords) lines ->
  exists st',
    objLoop fs options lines st h = (Ok st', h) /\
    positions st' = positions st /\ normals st' = normals st /\
    uvs st' = uvs st /\ currentMaterial st' = currentMaterial st.
Proof.
  intros Hall. revert st.
  induction Hall as [|l lines Hl _ IH]; intros st; [by exists st|].
  cbn [objLoop]. unfold objLine, inert in *.
  destruct (Fields l) as [|key parts].
  - unfold objRecord.
    destruct (IH (countLine st)) as (st' & -> & Hp & Hn & Hu & Hc). by exists st'.
  - destruct (objRecord_inert options key parts (countLine st) h Hl) as [seen ->].
    match goal with |- context [objLoop _ _ _ ?s _] =>
      destruct (IH s) as (st' & -> & Hp & Hn & Hu & Hc) end.
    by exists st'.
Qed.

(** X13: a geometry file made of blank lines, comments and lines of other
    keywords than [v], [vn], [vt], [f], [usemtl] and [mtllib] - whatever
    follows the keyword - is loaded without error and leaves both maps as
    they were. *)
Theorem LoadObj_inert_lines options path h f :
  fs path = Some f ->
  Forall (inert objKeywords) (flines f) ->
  LoadObj fs path h options =
  (if ferr f then Error ScanError else Ok tt, h).
Proof.
  intros Hf Hall. unfold LoadObj. rewrite Hf.
  by destruct (objLoop_inert options (flines f) initObjState h Hall) as (st' & -> & _).
Qed.

(** ** Material libraries *)

Lemma index_head {A} (a : A) (l : list A) : index (a :: l) 0 = Ok a.
Proof.
  unfold index. cbn [List.length].
  destruct (0 <? Z.of_nat (S (List.length l))) eqn:E; [done|].
  apply Z.ltb_ge in E. lia.
Qed.

Lemma vector_of_slice (nums : list F) (x y z : F) (more : list F) :
  nums = x :: y :: z :: more ->
  (a ← index nums 0; b ← index nums 1; c ← index nums 2; mret (a, b, c)) =
  Ok (x, y, z).
Proof.
  intros ->. rewrite index_head, bind_Ok.
  assert (H1 : index (x :: y :: z :: more) 1 = Ok y).
  { apply index_Ok. split; [lia | done]. }
  assert (H2 : index (x :: y :: z :: more) 2 = Ok z).
  { apply index_Ok. split; [lia | done]. }
  by rewrite H1, bind_Ok, H2.
Qed.

Lemma scalarCase_parsed msg a rest (m : option string) upd x
    (mats : gmap string (Material F)) :
  ParseFloat a = Some x ->
  scalarCase msg (a :: rest) m upd mats = assign m (upd x) mats.
Proof. intros Ha. unfold scalarCase. cbn [List.length Nat.ltb Nat.leb]. by rewrite index_head, Ha. Qed.

Lemma vectorCase_parsed msg parts (m : option string) upd x y z more
    (mats : gmap string (Material F)) :
  sliceToFloat32 parts = (x :: y :: z :: more, None) ->
  vectorCase msg parts m upd mats = assign m (upd (x, y, z)) mats.
Proof.
  intros Hs. unfold vectorCase.
  assert (Hl : (List.length parts <? 3)%nat = false).
  { apply Nat.ltb_ge. apply sliceToFloat32From_inv in Hs as (vals & Hv & Hall).
    cbn [app] in Hv. subst vals. apply Forall2_length in Hall. rewrite Hall.
    simpl. lia. }
  rewrite Hl, Hs. by rewrite (vector_of_slice _ x y z more eq_refl).
Qed.

(** X14: a property line that is well formed but comes before any [newmtl]
    makes [LoadMtl] panic on the nil record, the map untouched; when its
    fields are missing or do not parse, the error of that is returned
    instead, the fields being looked at first. *)
Theorem property_before_newmtl l key parts (mats : gmap string (Material F)) :
  Fields l = key :: parts ->
  (forall a rest x, key ∈ ["Ns"; "Ni"; "d"] -> parts = a :: rest ->
     ParseFloat a = Some x ->
     mtlLine l None mats = (Panic NilDereference, mats)) /\
  (forall a rest n, key = "illum" -> parts = a :: rest -> ParseInt a = Some n ->
     mtlLine l None mats = (Panic NilDereference, mats)) /\
  (forall x y z more, key ∈ ["Ka"; "Kd"; "Ke"; "Ki"; "Ks"] ->
     sliceToFloat32 parts = (x :: y :: z :: more, None) ->
     mtlLine l None mats = (Panic NilDereference, mats)) /\
  (forall a rest, key ∈ ["Ns"; "Ni"; "d"] -> parts = a :: rest ->
     ParseFloat a = None ->
     mtlLine l None mats = (Error (NumError "ParseFloat" a), mats)) /\
  (key ∈ ["Ka"; "Kd"; "Ke"; "Ki"; "Ks"] -> (List.length parts < 3)%nat ->
     exists msg, mtlLine l None mats = (Error (errorInvalidFormat msg parts), mats)).
Proof.
  intros Hl. unfold mtlLine. rewrite Hl. repeat split.
  - intros a rest x Hk -> Ha. rewrite !elem_of_cons in Hk.
    destruct Hk as [->|[->|[->|Hk]]]; [| | |by apply elem_of_nil in Hk];
      cbn [String.eqb Ascii.eqb Bool.eqb]; by rewrite (scalarCase_parsed _ _ _ _ _ x _ Ha).
  - intros a rest n -> -> Ha. cbn [String.eqb Ascii.eqb Bool.eqb].
    cbn [List.length Nat.ltb Nat.leb]. rewrite index_head, bind_Ok.
    unfold Atoi. by rewrite Ha.
  - intros x y z more Hk Hs. rewrite !elem_of_cons in Hk.
    destruct Hk as [->|[->|[->|[->|[->|Hk]]]]]; [| | | | |by apply elem_of_nil in Hk];
      cbn [String.eqb Ascii.eqb Bool.eqb];
      by rewrite (vectorCase_parsed _ _ _ _ x y z more _ Hs).
  - intros a rest Hk -> Ha. rewrite !elem_of_cons in Hk.
    destruct Hk as [->|[->|[->|Hk]]]; [| | |by apply elem_of_nil in Hk];
      cbn [String.eqb Ascii.eqb Bool.eqb]; unfold scalarCase;
      cbn [List.length Nat.ltb Nat.leb]; by rewrite index_head, Ha.
  - intros Hk Hlen. apply Nat.ltb_lt in Hlen. rewrite !elem_of_cons in Hk.
    destruct Hk as [->|[->|[->|[->|[->|Hk]]]]]; [| | | | |by apply elem_of_nil in Hk];
      cbn [String.eqb Ascii.eqb Bool.eqb]; unfold vectorCase; rewrite Hlen;
      eexists; reflexivity.
Qed.

(** X15: [newmtl name] puts under [name] the record whose name is [name],
    whose three scalars and illumination model are zero and whose five
    vectors are (0,0,0), whatever was there and whatever follows the name on
    the line; it makes it the current record and leaves the other materials
    alone.  [newmtl] without a name panics with an index out of range. *)
Theorem newmtl_registers l m (mats : gmap string (Material F)) :
  (forall name rest, Fields l = "newmtl" :: name :: rest ->
     exists mats',
       mtlLine l m mats = (Ok (Some name), mats') /\
       mats' !! name =
       Some {| Name := name; Ns := f32_zero; Ni := f32_zero; D := f32_zero;
               Illum := 0;
               Ka := (f32_zero, f32_zero, f32_zero);
               Kd := (f32_zero, f32_zero, f32_zero);
               Ks := (f32_zero, f32_zero, f32_zero);
               Ke := (f32_zero, f32_zero, f32_zero);
               Ki := (f32_zero, f32_zero, f32_zero) |} /\
       forall k, k <> name -> mats' !! k = mats !! k) /\
  (Fields l = ["newmtl"] -> mtlLine l m mats = (Panic IndexOutOfRange, mats)).
Proof.
  split.
  - intros name rest Hl. eexists. split; [|split].
    + unfold mtlLine. rewrite Hl. cbn [String.eqb Ascii.eqb Bool.eqb].
      by rewrite index_head.
    + apply lookup_insert_eq.
    + intros k Hk. by apply lookup_insert_ne.
  - intros Hl. unfold mtlLine. rewrite Hl. reflexivity.
Qed.


(** X17: with a current record [r] under [name], each scalar keyword sets
    its own field of that record from the first field of the line, whatever
    follows it: [Ns], [Ni] and [d] to the parsed float, [illum] to the
    parsed integer reduced to 32 bits; the other nine fields and the other
    materials stay. *)
Theorem scalar_keyword_sets_its_field l a rest name r
    (mats : gmap string (Material F)) :
  mats !! name = Some r ->
  (forall x, ParseFloat a = Some x ->
     (Fields l = "Ns" :: a :: rest ->
      exists mats',
        mtlLine l (Some name) mats = (Ok (Some name), mats') /\
        mats' !! name =
        Some {| Name := Name r; Ns := x; Ni := Ni r; D := D r; Illum := Illum r;
                Ka := Ka r; Kd := Kd r; Ks := Ks r; Ke := Ke r; Ki := Ki r |} /\
        forall k, k <> name -> mats' !! k = mats !! k) /\
     (Fields l = "Ni" :: a :: rest ->
      exists mats',
        mtlLine l (Some name) mats = (Ok (Some name), mats') /\
        mats' !! name =
        Some {| Name := Name r; Ns := Ns r; Ni := x; D := D r; Illum := Illum r;
                Ka := Ka r; Kd := Kd r; Ks := Ks r; Ke := Ke r; Ki := Ki r |} /\
        forall k, k <> name -> mats' !! k = mats !! k) /\
     (Fields l = "d" :: a :: rest ->
      exists mats',
        mtlLine l (Some name) mats = (Ok (Some name), mats') /\
        mats' !! name =
        Some {| Name := Name r; Ns := Ns r; Ni := Ni r; D := x; Illum := Illum r;
                Ka := Ka r; Kd := Kd r; Ks := Ks r; Ke := Ke r; Ki := Ki r |} /\
        forall k, k <> name -> mats' !! k = mats !! k)) /\
  (forall n, ParseInt a = Some n ->
     (Fields l = "illum" :: a :: rest ->
      exists mats',
        mtlLine l (Some name) mats = (Ok (Some name), mats') /\
        mats' !! name =
        Some {| Name := Name r; Ns := Ns r; Ni := Ni r; D := D r; Illum := ((n + 2 ^ 31) mod 2 ^ 32 - 2 ^ 31);
                Ka := Ka r; Kd := Kd r; Ks := Ks r; Ke := Ke r; Ki := Ki r |} /\
        forall k, k <> name -> mats' !! k = mats !! k) /\
     (- 2 ^ 31 <= n < 2 ^ 31 -> (n + 2 ^ 31) mod 2 ^ 32 - 2 ^ 31 = n)).
Proof.
  intros Hr. split.
  - intros x Ha.
    split_and!; intros Hl;
      (eexists; split;
       [unfold mtlLine; rewrite Hl; cbn [String.eqb Ascii.eqb Bool.eqb];
        by rewrite (scalarCase_parsed _ _ _ _ _ x _ Ha)|]);
      cbn [assign snd];
      (split; [by rewrite lookup_alter_eq, Hr
              | intros k Hk; by rewrite lookup_alter_ne]).
  - intros n Ha. split.
    + intros Hl. eexists. split; [|split].
      * unfold mtlLine. rewrite Hl. cbn [String.eqb Ascii.eqb Bool.eqb].
        cbn [List.length Nat.ltb Nat.leb]. rewrite index_head, bind_Ok.
        unfold Atoi. rewrite Ha. reflexivity.
      * cbn [assign snd]. by rewrite lookup_alter_eq, Hr.
      * cbn [assign snd]. intros k Hk. by rewrite lookup_alter_ne.
    + intros Hn. rewrite Z.mod_small; lia.
Qed.

Lemma assign_names (m : option string) (upd : Material F -> Material F)
    (mats : gmap string (Material F)) :
  (forall r, Name (upd r) = Name r) ->
  namesMatch mats -> namesMatch (assign m upd mats).2.
Proof.
  intros Hupd Hn. destruct m as [name|]; [|done]. cbn [assign snd].
  intros k r. destruct (decide (name = k)) as [->|Hne].
  - rewrite lookup_alter_eq. destruct (mats !! k) as [r0|] eqn:E; [|done].
    intros [= <-]. rewrite Hupd. by apply Hn.
  - rewrite lookup_alter_ne by done. apply Hn.
Qed.

Lemma scalarCase_names msg parts m upd (mats : gmap string (Material F)) :
  (forall x r, Name (upd x r) = Name r) ->
  namesMatch mats -> namesMatch (scalarCase msg parts m upd mats).2.
Proof.
  intros Hupd Hn. unfold scalarCase. destruct (_ <? _)%nat; [done|].
  destruct (index parts 0); [|done..].
  destruct (ParseFloat _); [by apply assign_names | done].
Qed.

Lemma vectorCase_names msg parts m upd (mats : gmap string (Material F)) :
  (forall x r, Name (upd x r) = Name r) ->
  namesMatch mats -> namesMatch (vectorCase msg parts m upd mats).2.
Proof.
  intros Hupd Hn. unfold vectorCase. destruct (_ <? _)%nat; [done|].
  destruct (sliceToFloat32 parts) as [nums [err|]]; [done|].
  destruct (_ ≫= _); [by apply assign_names | done..].
Qed.

Lemma mtlLine_names rawText m (mats : gmap string (Material F)) :
  namesMatch mats -> namesMatch (mtlLine rawText m mats).2.
Proof.
  intros Hn. unfold mtlLine. destruct (Fields rawText) as [|key parts]; [done|].
  repeat match goal with
         | |- context [if String.eqb key ?k then _ else _] =>
             destruct (String.eqb key k)
         end; cbn [snd];
    try (by apply scalarCase_names); try (by apply vectorCase_names); try done.
  - destruct (index parts 0) as [name| |]; cbn [snd]; [|done..].
    intros k r. destruct (decide (name = k)) as [->|Hne].
    + rewrite lookup_insert_eq. by intros [= <-].
    + rewrite lookup_insert_ne by done. apply Hn.
  - destruct (_ <? _)%nat; [done|].
    destruct (_ ≫= _); cbn [snd]; [by apply assign_names | done..].
Qed.

Lemma mtlLoop_names lines m (mats : gmap string (Material F)) :
  namesMatch mats -> namesMatch (mtlLoop lines m mats).2.
Proof.
  revert m mats. induction lines as [|l lines IH]; intros m mats Hn; [done|].
  cbn [mtlLoop]. pose proof (mtlLine_names l m mats Hn) as Hl.
  destruct (mtlLine l m mats) as [[m'| |] mats']; cbn [snd] in *; [|done..].
  by apply IH.
Qed.

Lemma LoadMtl_names path (mats : gmap string (Material F)) :
  namesMatch mats -> namesMatch (LoadMtl fs path mats).2.
Proof.
  intros Hn. unfold LoadMtl. destruct (fs path); [by apply mtlLoop_names | done].
Qed.

Lemma mtllibLoop_names parts (mats : gmap string (Material F)) :
  namesMatch mats -> namesMatch (mtllibLoop fs parts mats).2.
Proof.
  revert mats. induction parts as [|p parts IH]; intros mats Hn; [done|].
  cbn [mtllibLoop]. pose proof (LoadMtl_names p mats Hn) as Hl.
  destruct (LoadMtl fs p mats) as [[[]| |] mats']; cbn [snd] in *; [|done..].
  by apply IH.
Qed.

Lemma objRecord_names options fields st h :
  namesMatch (materials h) ->
  namesMatch (materials (objRecord fs options fields st h).2).
Proof.
  intros Hn. unfold objRecord.
  destruct fields as [|key parts]; [done|].
  repeat match goal with
         | |- context [if ?b then _ else _] =>
             match b with
             | String.eqb key _ => destruct b
             | (_ <? _)%nat => destruct b
             end
         end; try done.
  - by destruct (faceVertices options st parts) as [[vtype vs]| |].
  - pose proof (mtllibLoop_names parts (materials h) Hn) as Hl.
    by destruct (mtllibLoop fs parts (materials h)) as [r mats'].
  - by destruct (decide _).
Qed.

Lemma objLoop_names options lines st h :
  namesMatch (materials h) ->
  namesMatch (materials (objLoop fs options lines st h).2).
Proof.
  revert st h. induction lines as [|l lines IH]; intros st h Hn; [done|].
  cbn [objLoop].
  pose proof (objRecord_names options (Fields l) (countLine st) h Hn) as Hl.
  fold (objLine fs options l st h) in Hl.
  destruct (objLine fs options l st h) as [[st'| |] h1]; cbn [snd] in *; [|done..].
  by apply IH.
Qed.

(** X18: whatever their outcome, [LoadMtl] and [LoadObj] keep every
    material under its own name: if each record of the map given to the
    call has the name of its key, so has each record of the map the call
    leaves.  A record and its key cannot come apart. *)
Theorem materials_sit_under_their_name options path h :
  namesMatch (materials h) ->
  namesMatch (LoadMtl fs path (materials h)).2 /\
  namesMatch (materials (LoadObj fs path h options).2).
Proof.
  intros Hn. split; [by apply LoadMtl_names|].
  unfold LoadObj. destruct (fs path) as [f|]; [|done].
  pose proof (objLoop_names options (flines f) initObjState h Hn) as Hl.
  by destruct (objLoop fs options (flines f) initObjState h) as [[st'| |] h1].
Qed.

Lemma mtlLine_inert l m (mats : gmap string (Material F)) :
  inert mtlKeywords l -> mtlLine l m mats = (Ok m, mats).
Proof.
  unfold inert, mtlLine. destruct (Fields l) as [|key parts]; [done|].
  unfold mtlKeywords. rewrite !not_elem_of_cons.
  intros (H1 & H2 & H3 & H4 & H5 & H6 & H7 & H8 & H9 & H10 & _).
  apply String.eqb_neq in H1, H2, H3, H4, H5, H6, H7, H8, H9, H10.
  by rewrite H1, H2, H3, H4, H5, H6, H7, H8, H9, H10.
Qed.

(** X19: lines that are blank or start with a keyword [LoadMtl] does not
    know are skipped without a trace, wherever they stand: taking them out
    of a material library changes neither the outcome nor the map. *)
Theorem LoadMtl_skips_unknown_lines (pre post : list string) l m
    (mats : gmap string (Material F)) :
  inert mtlKeywords l ->
  mtlLoop (pre ++ l :: post) m mats = mtlLoop (pre ++ post) m mats.
Proof.
  intros Hl. revert m mats.
  induction pre as [|l0 pre IH]; intros m mats; cbn [app mtlLoop].
  - by rewrite (mtlLine_inert l m mats Hl).
  - destruct (mtlLine l0 m mats) as [[m'| |] mats']; [apply IH|done..].
Qed.

(** X20: a library of the two lines [newmtl name] and [Kd a b c] leaves
    under [name] the record of that name whose diffuse vector holds the
    three values and whose other fields are zero, and leaves the other
    materials as they were. *)
Theorem LoadMtl_newmtl_Kd path f l1 l2 name a b c x y z
    (mats : gmap string (Material F)) :
  fs path = Some f ->
  flines f = [l1; l2] ->
  Fields l1 = ["newmtl"; name] ->
  Fields l2 = ["Kd"; a; b; c] ->
  ParseFloat a = Some x -> ParseFloat b = Some y -> ParseFloat c = Some z ->
  LoadMtl fs path mats =
  (Ok tt,
   <[name := {| Name := name; Ns := f32_zero; Ni := f32_zero; D := f32_zero;
                Illum := 0;
                Ka := (f32_zero, f32_zero, f32_zero);
                Kd := (x, y, z);
                Ks := (f32_zero, f32_zero, f32_zero);
                Ke := (f32_zero, f32_zero, f32_zero);
                Ki := (f32_zero, f32_zero, f32_zero) |}]> mats).
Proof.
  intros Hf Hlines H1 H2 Ha Hb Hc.
  unfold LoadMtl. rewrite Hf, Hlines. cbn [mtlLoop].
  assert (Hs : sliceToFloat32 [a; b; c] = ([x; y; z], None)).
  { apply (sliceToFloat32From_parsed [a; b; c] [] [x; y; z]).
    repeat constructor; done. }
  assert (R1 : mtlLine l1 None mats = (Ok (Some name), <[name := newMaterial name]> mats)).
  { unfold mtlLine. rewrite H1. cbn [String.eqb Ascii.eqb Bool.eqb]. by rewrite index_head. }
  rewrite R1.
  assert (R2 : mtlLine l2 (Some name) (<[name := newMaterial name]> mats) =
               (Ok (Some name),
                alter (setKd (x, y, z)) name (<[name := newMaterial name]> mats))).
  { unfold mtlLine. rewrite H2. cbn [String.eqb Ascii.eqb Bool.eqb].
    by rewrite (vectorCase_parsed _ _ _ _ x y z [] _ Hs). }
  rewrite R2. f_equal.
  apply map_eq. intros k. destruct (decide (name = k)) as [->|Hne].
  - by rewrite lookup_alter_eq, !lookup_insert_eq.
  - by rewrite lookup_alter_ne, !lookup_insert_ne.
Qed.

(** ** Which record writes which map *)

(** X21: a [mtllib] line loads its libraries from left to right and stops
    at the first that cannot be opened: the record fails with the error of
    that path, the materials of the libraries before it stay in the map and
    the libraries after it are not looked at. *)
Theorem mtllib_missing_library options st h pre p post mats1 :
  mtllibLoop fs pre (materials h) = (Ok tt, mats1) ->
  fs p = None ->
  objRecord fs options ("mtllib" :: pre ++ p :: post) st h =
  (Error (PathError p), mkStore (meshes h) mats1).
Proof.
  intros Hpre Hp.
  assert (Hl : forall mats, mtllibLoop fs pre mats = (Ok tt, mats1) ->
                 mtllibLoop fs (pre ++ p :: post) mats = (Error (PathError p), mats1)).
  { clear Hpre. induction pre as [|q pre IH]; intros mats; cbn [app mtllibLoop].
    - intros [= <-]. unfold LoadMtl. by rewrite Hp.
    - destruct (LoadMtl fs q mats) as [[[]| |] mats']; try discriminate. apply IH. }
  unfold objRecord. cbn [String.eqb Ascii.eqb Bool.eqb].
  by rewrite (Hl _ Hpre).
Qed.

Lemma objRecord_not_face options fields st h :
  (forall parts, fields <> "f" :: parts) ->
  meshes (objRecord fs options fields st h).2 = meshes h.
Proof.
  intros Hnf. unfold objRecord.
  destruct fields as [|key parts]; [done|].
  repeat match goal with
         | |- context [if ?b then _ else _] =>
             match b with
             | String.eqb key ?k => destruct (String.eqb_spec key k); try subst key
             | (_ <? _)%nat => destruct b
             end
         end; try done.
  - by destruct (Hnf parts).
  - by destruct (mtllibLoop fs parts (materials h)).
  - by destruct (decide _).
Qed.

(** X22: only [f] records write the mesh map and only [mtllib] records the
    material map: whatever its outcome, [LoadObj] on a file without [f]
    line leaves the meshes as they were, and on a file without [mtllib]
    line the materials. *)
Theorem LoadObj_untouched_maps options path h f :
  fs path = Some f ->
  (Forall (fun l => forall parts, Fields l <> "f" :: parts) (flines f) ->
   meshes (LoadObj fs path h options).2 = meshes h) /\
  (Forall (fun l => forall parts, Fields l <> "mtllib" :: parts) (flines f) ->
   materials (LoadObj fs path h options).2 = materials h).
Proof.
  intros Hf. unfold LoadObj. rewrite Hf.
  assert (Hsnd : (match objLoop fs options (flines f) initObjState h with
                  | (Ok _, h') => (if ferr f then Error ScanError else Ok tt, h')
                  | (Error e, h') => (Error e, h')
                  | (Panic p, h') => (Panic p, h')
                  end).2 = (objLoop fs options (flines f) initObjState h).2).
  { by destruct (objLoop fs options (flines f) initObjState h) as [[?| |] ?]. }
  rewrite Hsnd. clear Hsnd Hf.
  generalize (@initObjState F). generalize (flines f). clear f.
  intros lines. split.
  - intros Hall. revert o h. induction Hall as [|l lines Hl _ IH]; intros st h; [done|].
    cbn [objLoop].
    pose proof (objRecord_not_face options (Fields l) (countLine st) h Hl) as Hm.
    fold (objLine fs options l st h) in Hm.
    destruct (objLine fs options l st h) as [[st'| |] h1]; cbn [snd] in *; [|done..].
    by rewrite IH.
  - intros Hall. revert o h. induction Hall as [|l lines Hl _ IH]; intros st h; [done|].
    cbn [objLoop].
    destruct (objRecord_store fs options (Fields l) (countLine st) h) as (_ & Hm & _).
    specialize (Hm Hl). fold (objLine fs options l st h) in Hm.
    destruct (objLine fs options l st h) as [[st'| |] h1]; cbn [snd] in *; [|done..].
    by rewrite IH.
Qed.

End Coverage.

(** * More of the decoder on binary32 *)

Module CoverageExamples.

Import Binary32 Scene.

Lemma sliceToFloat32_spec_witness :
  sliceToFloat32 ["1"; "x"; "2"] = ([one], Some (NumError "ParseFloat" "x")).
Proof.
  apply (proj2 (sliceToFloat32_spec ["1"; "x"; "2"] [one]) ["1"] "x" ["2"]).
  - reflexivity.
  - repeat constructor.
  - reflexivity.
Defined.

Lemma sliceToInt_spec_witness :
  sliceToInt ["1"; "-2"; "+3"] = ([1; -2; 3], None).
Proof.
  apply (proj1 (sliceToInt_spec ["1"; "-2"; "+3"] [1; -2; 3])).
  repeat constructor.
Defined.

Lemma getFaceType_by_segments_witness :
  getFaceType "a//7" = PositionNormal /\ getFaceType "a/b/7" = PositionUVNormal.
Proof.
  split.
  - apply (getFaceType_by_segments "a" "" "7" ""); reflexivity.
  - apply (getFaceType_by_segments "a" "b" "7" ""); reflexivity.
Defined.

Lemma face_token_decode_witness :
  Trim "1/2/3" "/" = "1/2/3" /\ getFaceType "1/2/3" = PositionUVNormal /\
  getFaceData "1/2/3" PositionUVNormal = [1; 2; 3].
Proof.
  apply (face_token_decode PositionUVNormal "1/2/3" [1; 2; 3]).
  apply (token_v_vt_vn "1" "2" "3" 1 2 3);
    (repeat split; [discriminate | unfold maxInt; lia]).
Defined.

Lemma faceTokens_well_formed_witness :
  faceTokens ["1//3"; "2//3"; "3//1"] = Ok (PositionNormal, [[1; 3]; [2; 3]; [3; 1]]).
Proof.
  apply (faceTokens_well_formed PositionNormal "1//3" "2//3" "3//1").
  - apply (token_v_vn "1" "3" 1 3); (repeat split; [discriminate | unfold maxInt; lia]).
  - apply (token_v_vn "2" "3" 2 3); (repeat split; [discriminate | unfold maxInt; lia]).
  - apply (token_v_vn "3" "1" 3 1); (repeat split; [discriminate | unfold maxInt; lia]).
Defined.


Lemma face_record_accepted_iff_witness :
  objRecord noFiles (mkOptions false) ["f"; "1"; "2"; "-1"] triangleState emptyStore =
  (Panic IndexOutOfRange, emptyStore).
Proof.
  apply (face_record_accepted_iff noFiles (mkOptions false) triangleState emptyStore
           ["1"; "2"; "-1"] PositionOnly [[1]; [2]; [-1]]).
  - vm_compute. discriminate.
  - vm_compute. discriminate.
  - vm_compute. discriminate.
  - reflexivity.
  - intros Hall. inversion Hall as [|? ? _ H2]; subst.
    inversion H2 as [|? ? _ H3]; subst.
    inversion H3 as [|? ? Hf _]; subst.
    inversion Hf as [|? ? Hr _]; subst.
    unfold inRange, slot in Hr. simpl in Hr. lia.
Defined.



Lemma arrays_append_only_witness :
  exists st' h',
    objLoop noFiles (mkOptions false) ["v 1 2 3"; "vt 0 1"; "f 4 2 1"]
      triangleState emptyStore = (Ok st', h') /\
    positions triangleState `prefix_of` positions st'.
Proof.
  do 2 eexists. split; [vm_compute; reflexivity|].
  eapply (arrays_append_only noFiles (mkOptions false) ["v 1 2 3"; "vt 0 1"; "f 4 2 1"]
            triangleState emptyStore).
  vm_compute. reflexivity.
Defined.

Lemma vn_vt_record_arity_witness :
  objRecord noFiles (mkOptions false) ["vn"; "0"; "1"; "0"] triangleState emptyStore =
  (Ok (mkObjState [o; ex; ey] [ez; ey] [(zero, zero)] 5 0 "default" ∅), emptyStore) /\
  objRecord noFiles (mkOptions false) ["vt"; "0"] triangleState emptyStore =
  (Panic SliceBoundsOutOfRange, emptyStore).
Proof.
  destruct (vn_vt_record_arity noFiles (mkOptions false) triangleState emptyStore)
    as (_ & _ & Hvn & _ & Hvt & _).
  split.
  - apply (Hvn "0" "1" "0" zero one zero); reflexivity.
  - apply (Hvt ["0"]). simpl. lia.
Defined.

Lemma usemtl_selects_material_witness :
  exists st' h',
    objLoop noFiles (mkOptions false) ["usemtl red blue"; "f 1 2 3"]
      (setMaterial triangleState "green") emptyStore = (Ok st', h') /\
    bucketVertices (meshes h') "mesh-vtype0-materialdefault" =
    slice3 o ++ slice3 ex ++ slice3 ey.
Proof.
  destruct (usemtl_selects_material noFiles (mkOptions false)
              (setMaterial triangleState "green") emptyStore) as (_ & _ & _ & Hf).
  destruct (Hf "usemtl red blue" "f 1 2 3" "red" "blue" [] ["1"; "2"; "3"]
              PositionOnly (slice3 o ++ slice3 ex ++ slice3 ey)
              eq_refl eq_refl eq_refl) as (st' & h' & Hr & Hb).
  exists st', h'. split; [exact Hr | exact Hb].
Defined.

Lemma LoadObj_inert_lines_witness :
  LoadObj Scene2.files "notes.obj" emptyStore (mkOptions true) = (Ok tt, emptyStore).
Proof.
  apply (LoadObj_inert_lines Scene2.files (mkOptions true) "notes.obj" emptyStore
           (mkFile ["# a cube"; ""; "o cube"; "s off"; "g side top"; "#end"] false)).
  - reflexivity.
  - repeat match goal with |- Forall _ _ => constructor end;
      unfold inert; simpl; try exact I;
      unfold objKeywords; rewrite !not_elem_of_cons;
      repeat split; try discriminate; apply not_elem_of_nil.
Defined.

Lemma property_before_newmtl_witness :
  mtlLine "Kd 1 0 0" None (∅ : gmap string (Material spec_float)) =
  (Panic NilDereference, ∅).
Proof.
  destruct (property_before_newmtl "Kd 1 0 0" "Kd" ["1"; "0"; "0"]
              (∅ : gmap string (Material spec_float)) eq_refl)
    as (_ & _ & Hv & _).
  apply (Hv one zero zero []).
  - repeat first [apply list_elem_of_here | apply list_elem_of_further].
  - reflexivity.
Defined.

Lemma newmtl_registers_witness :
  exists mats',
    mtlLine "newmtl wood oak" None (∅ : gmap string (Material spec_float)) =
    (Ok (Some "wood"), mats') /\
    mats' !! "wood" =
    Some {| Name := "wood"; Ns := zero; Ni := zero; D := zero; Illum := 0;
            Ka := (zero, zero, zero); Kd := (zero, zero, zero);
            Ks := (zero, zero, zero); Ke := (zero, zero, zero);
            Ki := (zero, zero, zero) |}.
Proof.
  destruct (newmtl_registers "newmtl wood oak" None
              (∅ : gmap string (Material spec_float))) as [Hn _].
  destruct (Hn "wood" ["oak"] eq_refl) as (mats' & Hr & Hw & _).
  exists mats'. split; [exact Hr | exact Hw].
Defined.


Lemma scalar_keyword_sets_its_field_witness :
  exists mats',
    mtlLine "illum 4294967298 x" (Some "wood")
      {[ "wood" := {| Name := "wood"; Ns := one; Ni := zero; D := one; Illum := 7;
                      Ka := (zero, zero, one); Kd := (one, zero, one);
                      Ks := (zero, one, one); Ke := (one, one, zero);
                      Ki := (one, one, one) |} ]} =
    (Ok (Some "wood"), mats') /\
    mats' !! "wood" =
    Some {| Name := "wood"; Ns := one; Ni := zero; D := one; Illum := 2;
            Ka := (zero, zero, one); Kd := (one, zero, one);
            Ks := (zero, one, one); Ke := (one, one, zero);
            Ki := (one, one, one) |}.
Proof.
  destruct (scalar_keyword_sets_its_field "illum 4294967298 x" "4294967298" ["x"]
              "wood"
              {| Name := "wood"; Ns := one; Ni := zero; D := one; Illum := 7;
                 Ka := (zero, zero, one); Kd := (one, zero, one);
                 Ks := (zero, one, one); Ke := (one, one, zero);
                 Ki := (one, one, one) |}
              {[ "wood" := {| Name := "wood"; Ns := one; Ni := zero; D := one;
                              Illum := 7;
                              Ka := (zero, zero, one); Kd := (one, zero, one);
                              Ks := (zero, one, one); Ke := (one, one, zero);
                              Ki := (one, one, one) |} ]})
    as [_ Hi].
  - vm_compute. reflexivity.
  - destruct (Hi 4294967298 eq_refl) as [Hi' _].
    destruct (Hi' eq_refl) as (mats' & Hr & Hw & _).
    exists mats'. split; [exact Hr | exact Hw].
Defined.

Lemma materials_sit_under_their_name_witness :
  namesMatch (materials (LoadObj files "scene.obj" emptyStore (mkOptions false)).2).
Proof.
  apply (materials_sit_under_their_name files (mkOptions false) "scene.obj" emptyStore).
  intros k r Hr. unfold emptyStore in Hr. cbn [materials] in Hr.
  rewrite lookup_empty in Hr. discriminate.
Defined.

Lemma LoadMtl_skips_unknown_lines_witness :
  mtlLoop (["newmtl wood"] ++ "map_Kd wood.png" :: ["Ns 2"]) None
    (∅ : gmap string (Material spec_float)) =
  mtlLoop (["newmtl wood"] ++ ["Ns 2"]) None ∅.
Proof.
  apply (LoadMtl_skips_unknown_lines ["newmtl wood"] ["Ns 2"] "map_Kd wood.png").
  unfold inert. simpl. unfold mtlKeywords. rewrite !not_elem_of_cons.
  repeat split; try discriminate. apply not_elem_of_nil.
Defined.

Lemma LoadMtl_newmtl_Kd_witness :
  exists x y z,
    parseFloat32 "0.5" = Some x /\ parseFloat32 "0.3" = Some y /\
    parseFloat32 "0.1" = Some z /\
    LoadMtl files "wood.mtl" (∅ : gmap string (Material spec_float)) =
    (Ok tt,
     <["wood" := {| Name := "wood"; Ns := zero; Ni := zero; D := zero; Illum := 0;
                    Ka := (zero, zero, zero); Kd := (x, y, z);
                    Ks := (zero, zero, zero); Ke := (zero, zero, zero);
                    Ki := (zero, zero, zero) |}]> ∅).
Proof.
  exists (S754_finite false 8388608 (-24)), (S754_finite false 10066330 (-25)),
         (S754_finite false 13421773 (-27)).
  assert (Ha : parseFloat32 "0.5" = Some (S754_finite false 8388608 (-24)))
    by (vm_compute; reflexivity).
  assert (Hb : parseFloat32 "0.3" = Some (S754_finite false 10066330 (-25)))
    by (vm_compute; reflexivity).
  assert (Hc : parseFloat32 "0.1" = Some (S754_finite false 13421773 (-27)))
    by (vm_compute; reflexivity).
  split; [exact Ha|]. split; [exact Hb|]. split; [exact Hc|].
  exact (LoadMtl_newmtl_Kd files "wood.mtl"
           (mkFile ["newmtl wood"; "Kd 0.5 0.3 0.1"] false)
           "newmtl wood" "Kd 0.5 0.3 0.1" "wood" "0.5" "0.3" "0.1" _ _ _ ∅
           eq_refl eq_refl eq_refl eq_refl Ha Hb Hc).
Defined.

Lemma mtllib_missing_library_witness :
  exists mats1,
    objRecord Scene2.files (mkOptions false)
      ("mtllib" :: ["wood.mtl"] ++ "none.mtl" :: ["wood.mtl"]) triangleState emptyStore =
    (Error (PathError "none.mtl"), mkStore ∅ mats1) /\
    Name <$> mats1 !! "wood" = Some "wood".
Proof.
  eexists. split.
  - eapply (mtllib_missing_library Scene2.files (mkOptions false) triangleState emptyStore
              ["wood.mtl"] "none.mtl" ["wood.mtl"]).
    + vm_compute. reflexivity.
    + reflexivity.
  - vm_compute. reflexivity.
Defined.

Lemma LoadObj_untouched_maps_witness :
  meshes (LoadObj Scene2.files "libs.obj" emptyStore (mkOptions false)).2 = ∅.
Proof.
  destruct (LoadObj_untouched_maps Scene2.files (mkOptions false) "libs.obj" emptyStore
              (mkFile ["mtllib wood.mtl none.mtl"; "v 0 0 0"] false) eq_refl) as [Hm _].
  apply Hm.
  repeat match goal with |- Forall _ _ => constructor end; intros parts; discriminate.
Defined.

End CoverageExamples.
